(** * Vital-sign signal-processing core: filters, LMS canceller, spectrum
      search and peak detector

    A shallow embedding of [python/dsp_filters.py], [python/fft_analyzer.py]
    and the QRS detector of [python/main.py].

    Numbers.  The Python code computes on NumPy [float64] arrays.  The
    algorithms are embedded over exact rationals [Q] (the usual idealisation
    of floating point: no rounding, no overflow), so that what is proved is
    the arithmetic the code writes down.  Where binary64 itself decides the
    outcome, the code is embedded over primitive floats as well (module
    [IEEE]): the zero-by-zero division of [spectral_entropy], and the
    rounding of [moving_average] on a constant buffer.

    Libraries.  NumPy's array primitives that the code relies on (slicing,
    [np.pad], [np.convolve], [np.argmax], boolean masks, [np.fft.fftfreq]) are
    written out.  The numerical kernels of NumPy and SciPy that have no
    rational counterpart (the Hann window, the FFT, filter design, the
    forward-backward recursion and its initial state, Welch's estimate, the
    logarithm) are fields of a record of library functions; the parameter
    checks SciPy performs before it calls them are written out. *)

From Stdlib Require Import QArith Qabs Lia Floats.
From stdpp Require Import list sorting.

(** ** Exceptions and fallible computations *)

Inductive exn : Set :=
  | ValueError
  | ZeroDivisionError
  | IndexError.

Inductive result (A : Type) : Type :=
  | Ok (a : A)
  | Raise (e : exn).

Arguments Ok {A} a.
Arguments Raise {A} e.

#[global] Instance result_ret : MRet result := fun _ a => Ok a.
#[global] Instance result_bind : MBind result :=
  fun _ _ f r => match r with Ok a => f a | Raise e => Raise e end.

Definition is_ok {A} (r : result A) : bool :=
  match r with Ok _ => true | Raise _ => false end.

(** A [for] loop over a list of indices, threading the loop state and
    stopping at the first exception. *)
Fixpoint for_each {S I : Type} (body : S -> I -> result S) (idx : list I) (s : S)
  : result S :=
  match idx with
  | [] => Ok s
  | i :: idx' => s' ← body s i; for_each body idx' s'
  end.

(** ** Scalars *)

Definition Qltb (x y : Q) : bool := negb (Qle_bool y x).

(** Python's [a / b] on numbers. *)
Definition py_div (a b : Q) : result Q :=
  if Qeq_bool b 0 then Raise ZeroDivisionError else Ok (a / b)%Q.

Definition Q_of_nat (n : nat) : Q := inject_Z (Z.of_nat n).

#[global] Instance Qle_dec (x y : Q) : Decision (x <= y)%Q :=
  match Qlt_le_dec y x with
  | left H => right (Qlt_not_le _ _ H)
  | right H => left H
  end.

(** ** NumPy primitives over rational arrays *)

Module np.

(** [xs[a:b]] for non-negative [a] and [b]: clipped to the array. *)
Definition slice {A} (a b : nat) (xs : list A) : list A :=
  take (b - a) (drop a xs).

(** [xs[i]] for a non-negative index. *)
Definition getitem {A} (xs : list A) (i : nat) : result A :=
  match xs !! i with
  | Some x => Ok x
  | None => Raise IndexError
  end.

Definition zeros (n : nat) : list Q := replicate n 0%Q.
Definition ones (n : nat) : list Q := replicate n 1%Q.

(** [np.sum]: the sum of the entries, [0] for an empty array. *)
Definition sum (xs : list Q) : Q := fold_left Qplus xs 0%Q.

(** The inner product of two arrays of one length. *)
Definition inner (w x : list Q) : Q := sum (zip_with Qmult w x).

(** [np.dot] on one-dimensional arrays: the shapes must agree. *)
Definition dot (w x : list Q) : result Q :=
  if decide (length w = length x) then Ok (inner w x) else Raise ValueError.

(** [s * x] for a scalar [s], and [w + x] for arrays of one shape. *)
Definition scale (s : Q) (x : list Q) : list Q := map (Qmult s) x.
Definition add (w x : list Q) : list Q := zip_with Qplus w x.

(** [a * b] on arrays of one shape. *)
Definition multiply (a b : list Q) : result (list Q) :=
  if decide (length a = length b) then Ok (zip_with Qmult a b) else Raise ValueError.

(** [xs[mask]] for a boolean array [mask]: its shape must be that of [xs]. *)
Fixpoint select {A} (mask : list bool) (xs : list A) : list A :=
  match mask, xs with
  | b :: mask', x :: xs' => if b then x :: select mask' xs' else select mask' xs'
  | _, _ => []
  end.

Definition getmask {A} (xs : list A) (mask : list bool) : result (list A) :=
  if decide (length mask = length xs) then Ok (select mask xs) else Raise IndexError.

(** [np.argmax]: the index of the first occurrence of the maximum; the
    running best is replaced only by a strictly larger entry. *)
Fixpoint argmax_from (best : Q) (best_i i : nat) (xs : list Q) : nat :=
  match xs with
  | [] => best_i
  | x :: xs' =>
      if Qltb best x then argmax_from x i (S i) xs'
      else argmax_from best best_i (S i) xs'
  end.

Definition argmax (xs : list Q) : result nat :=
  match xs with
  | [] => Raise ValueError
  | x :: xs' => Ok (argmax_from x 0 1 xs')
  end.

(** [np.maximum] on two numbers. *)
Definition maximum (a b : Q) : Q := if Qle_bool b a then a else b.

(** [np.max]: the maximum taken from left to right; an empty array has
    none (an exception). *)
Definition max (xs : list Q) : result Q :=
  match xs with
  | [] => Raise ValueError
  | x :: xs' => Ok (fold_left maximum xs' x)
  end.

(** [np.mean]: the sum over the number of entries. *)
Definition mean (xs : list Q) : Q := (sum xs / Q_of_nat (length xs))%Q.

(** [np.diff] on an array of indices. *)
Fixpoint diff (xs : list nat) : list Z :=
  match xs with
  | a :: (b :: _) as xs' => (Z.of_nat b - Z.of_nat a)%Z :: diff xs'
  | _ => []
  end.

(** [np.fft.fftfreq(n, d)]: the bins [0, 1, ..., (n-1)//2, -(n//2), ..., -1]
    scaled by [1 / (n d)]. *)
Definition fftfreq (n : nat) (d : Q) : result (list Q) :=
  val ← py_div 1 (Q_of_nat n * d)%Q;
  let N := (n - 1) / 2 + 1 in
  let results :=
    map Z.of_nat (seq 0 N) ++
    map (fun j => (Z.of_nat j - Z.of_nat (n / 2))%Z) (seq 0 (n - N)) in
  Ok (map (fun k => (inject_Z k * val)%Q) results).

(** [np.pad(xs, (l, r), mode='edge')]: an empty array cannot be extended. *)
Definition pad_edge (xs : list Q) (l r : nat) : result (list Q) :=
  match xs with
  | [] => if (l =? 0) && (r =? 0) then Ok [] else Raise ValueError
  | x :: _ => Ok (replicate l x ++ xs ++ replicate r (List.last xs x))
  end.

(** [np.convolve(a, v, mode='valid')]: the arguments are swapped when [v]
    is the longer one; output [k] is the sum over [j] of
    [a[k + j] * v[len v - 1 - j]]. *)
Definition convolve_valid (a v : list Q) : result (list Q) :=
  match a, v with
  | [], _ | _, [] => Raise ValueError
  | _, _ =>
      let '(a, v) := if length a <? length v then (v, a) else (a, v) in
      Ok (map (fun k => inner (take (length v) (drop k a)) (reverse v))
              (seq 0 (length a - length v + 1)))
  end.

End np.

(** ** [AdaptiveFilter]: the LMS noise canceller *)

Record AdaptiveFilter : Type := {
  filter_length : nat;
  step_size : Q;
  weights : list Q;
}.

(** [AdaptiveFilter.__init__] *)
Definition AdaptiveFilter_init (filter_length : nat) (step_size : Q) : AdaptiveFilter :=
  {| filter_length := filter_length;
     step_size := step_size;
     weights := np.zeros filter_length |}.

Definition set_weights (af : AdaptiveFilter) (w : list Q) : AdaptiveFilter :=
  {| filter_length := filter_length af; step_size := step_size af; weights := w |}.

(** The constructor's invariant: as many weights as taps. *)
Definition well_formed (af : AdaptiveFilter) : Prop :=
  length (weights af) = filter_length af.

(** [reference_noise[i-L:i][::-1]] *)
Definition reference_window (reference_noise : list Q) (L i : nat) : list Q :=
  reverse (np.slice (i - L) i reference_noise).

(** One pass of the loop body of [AdaptiveFilter.filter]; the loop state is
    the weight vector (mutated in place by [+=]) and the output array. *)
Definition filter_body (L : nat) (mu : Q) (primary_signal reference_noise : list Q)
    (st : list Q * list Q) (i : nat) : result (list Q * list Q) :=
  let '(w, output) := st in
  let x := reference_window reference_noise L i in
  estimated_noise ← np.dot w x;
  p ← np.getitem primary_signal i;
  let error := (p - estimated_noise)%Q in
  let output := <[i := error]> output in
  let w := np.add w (np.scale (2 * mu * error)%Q x) in
  Ok (w, output).

(** [AdaptiveFilter.filter]: the output array and the filter object after
    the call. *)
Definition filter (af : AdaptiveFilter) (primary_signal reference_noise : list Q)
  : result (list Q * AdaptiveFilter) :=
  let n := length primary_signal in
  let output := np.zeros n in
  let L := filter_length af in
  '(w, output) ← for_each (filter_body L (step_size af) primary_signal reference_noise)
                          (seq L (n - L)) (weights af, output);
  Ok (output, set_weights af w).

(** *** What the LMS recursion is, stated over a window function

    [lms_trace win L N mu w0 primary out wN]: there is a sequence of weight
    vectors [ws L], ..., [ws N], starting at [w0] and ending at [wN], such
    that for each [i] from [L] to [N-1] the [i]-th output is
    [primary[i] - ws i . win i] and the next weight vector is
    [ws i + 2 mu error (win i)]; outputs below [L] are zero. *)
Definition lms_trace (win : nat -> list Q) (L N : nat) (mu : Q) (w0 primary out wN : list Q)
  : Prop :=
  exists ws : nat -> list Q,
    ws L = w0 /\ ws N = wN /\
    (forall i, L <= i < N ->
       exists p, primary !! i = Some p /\
         let error := (p - np.inner (ws i) (win i))%Q in
         out !! i = Some error /\
         ws (S i) = np.add (ws i) (np.scale (2 * mu * error)%Q (win i))) /\
    (forall i, i < L -> out !! i = Some 0%Q) /\
    length out = N.

(** The [L] reference samples that precede index [i], most recent first:
    [ref[i-1], ref[i-2], ..., ref[i-L]]. *)
Definition window_before (ref : list Q) (L i : nat) : list Q :=
  map (fun j => nth (i - 1 - j) ref 0%Q) (seq 0 L).

(** The [L] reference samples that end at index [i] itself, most recent
    first: [ref[i], ref[i-1], ..., ref[i-L+1]] (the window as the
    specification words it). *)
Definition window_ending_at (ref : list Q) (L i : nat) : list Q :=
  map (fun j => nth (i - j) ref 0%Q) (seq 0 L).

(** ** The numerical kernels of NumPy and SciPy

    What the code calls and this development does not compute: each is a
    function of the library, with the shape contract its documentation
    states. *)

Inductive btype : Set := low | high | band.
Inductive pass_zero : Set := lowpass | highpass | bandpass.

Record Library : Type := {
  (** [np.hanning(n)] *)
  hanning : nat -> list Q;
  (** [np.abs(np.fft.fft(x))] and [np.angle(np.fft.fft(x))], bin by bin *)
  fft_abs : list Q -> list Q;
  fft_angle : list Q -> list Q;
  (** the coefficients [(b, a)] that [scipy.signal.butter] designs *)
  butter_ba : nat -> list Q -> btype -> list Q * list Q;
  (** [scipy.signal.iirnotch]: the gain [1 / (1 + beta)] as a function of
      the relative bandwidth [w0 / Q], and [cos(pi w0)] *)
  notch_gain : Q -> Q;
  cos_pi : Q -> Q;
  (** [scipy.signal.firwin], with its own parameter checks *)
  firwin : nat -> Q -> pass_zero -> result (list Q);
  (** [scipy.signal.lfilter_zi(b, a)], the initial state [filtfilt] asks
      for, with its own failures (too few coefficients, no steady state) *)
  lfilter_zi : list Q -> list Q -> result (list Q);
  (** the forward-backward recursion of [scipy.signal.filtfilt] *)
  filtfilt_run : list Q -> list Q -> list Q -> list Q;

  hanning_length : forall n, length (hanning n) = n;
  fft_abs_length : forall x, length (fft_abs x) = length x;
  fft_angle_length : forall x, length (fft_angle x) = length x;
  fft_abs_nonneg : forall x, Forall (Qle 0) (fft_abs x);
  filtfilt_run_length : forall b a x, length (filtfilt_run b a x) = length x;
}.

(** ** [FFTAnalyzer] *)

(** [np.fft.fft] rejects an empty array. *)
Definition fft_polar (lib : Library) (x : list Q) : result (list Q * list Q) :=
  match x with
  | [] => Raise ValueError
  | _ => Ok (fft_abs lib x, fft_angle lib x)
  end.

(** [FFTAnalyzer.compute_fft]: frequencies, magnitude, phase.  The complex
    spectrum is carried as its modulus and argument; the boolean mask is
    applied to each. *)
Definition compute_fft (lib : Library) (sample_rate : Q) (signal_data : list Q)
  : result (list Q * list Q * list Q) :=
  let n := length signal_data in
  let window := hanning lib n in
  windowed_signal ← np.multiply signal_data window;
  '(fft_mod, fft_arg) ← fft_polar lib windowed_signal;
  d ← py_div 1 sample_rate;
  frequencies ← np.fftfreq n d;
  let positive_mask := map (fun f => Qle_bool 0 f) frequencies in
  frequencies' ← np.getmask frequencies positive_mask;
  fft_mod ← np.getmask fft_mod positive_mask;
  fft_arg ← np.getmask fft_arg positive_mask;
  let magnitude := map (fun m => (m * 2 / Q_of_nat n)%Q) fft_mod in
  let phase := fft_arg in
  Ok (frequencies', magnitude, phase).

(** [FFTAnalyzer.find_dominant_frequency] *)
Definition find_dominant_frequency (lib : Library) (sample_rate : Q)
    (signal_data : list Q) (freq_range : Q * Q) : result (Q * Q) :=
  '(frequencies, magnitude, _) ← compute_fft lib sample_rate signal_data;
  let mask := map (fun f => Qle_bool (fst freq_range) f && Qle_bool f (snd freq_range))
                  frequencies in
  freq_subset ← np.getmask frequencies mask;
  mag_subset ← np.getmask magnitude mask;
  if length mag_subset =? 0 then Ok (0%Q, 0%Q)
  else
    peak_idx ← np.argmax mag_subset;
    dominant_freq ← np.getitem freq_subset peak_idx;
    peak_magnitude ← np.getitem mag_subset peak_idx;
    Ok (dominant_freq, peak_magnitude).

(** [FFTAnalyzer.extract_heart_rate] *)
Definition extract_heart_rate (lib : Library) (sample_rate : Q) (ppg_signal : list Q)
  : result (Q * Q) :=
  '(dominant_freq, magnitude) ←
     find_dominant_frequency lib sample_rate ppg_signal (0.67%Q, 3.33%Q);
  let heart_rate_bpm := (dominant_freq * 60)%Q in
  '(frequencies, full_magnitude, _) ← compute_fft lib sample_rate ppg_signal;
  let mean_mag := np.mean full_magnitude in
  let confidence := if Qltb 0 mean_mag then (magnitude / mean_mag)%Q else 0%Q in
  Ok (heart_rate_bpm, confidence).

(** [FFTAnalyzer.extract_respiration_rate] *)
Definition extract_respiration_rate (lib : Library) (sample_rate : Q) (signal_data : list Q)
  : result Q :=
  '(dominant_freq, _) ←
     find_dominant_frequency lib sample_rate signal_data (0.13%Q, 0.5%Q);
  Ok (dominant_freq * 60)%Q.

(** ** SciPy's parameter checks *)

Module signal.

(** [scipy.signal.butter] for a digital filter: every critical frequency
    must satisfy [0 < Wn < 1], and a band needs [Wn[0] < Wn[1]]. *)
Definition butter (lib : Library) (N : nat) (Wn : list Q) (bt : btype)
  : result (list Q * list Q) :=
  let in_range := forallb (fun w => Qltb 0 w && Qltb w 1) Wn in
  let ordered :=
    match Wn with
    | [lo; hi] => Qltb lo hi
    | _ => true
    end in
  if in_range && ordered then Ok (butter_ba lib N Wn bt) else Raise ValueError.

(** [scipy.signal.iirnotch(w0, Q)]: the range check is [w0 > 1 or w0 < 0];
    the bandwidth is [w0 / Q]; the coefficients are
    [b = gain * [1, -2 cos w0, 1]] and [a = [1, -2 gain cos w0, 2 gain - 1]]. *)
Definition iirnotch (lib : Library) (w0 quality : Q) : result (list Q * list Q) :=
  if Qltb 1 w0 || Qltb w0 0 then Raise ValueError
  else
    bw ← py_div w0 quality;
    let gain := notch_gain lib bw in
    let c := cos_pi lib w0 in
    Ok ([gain * 1; gain * (-2 * c); gain * 1]%Q,
        [1; -2 * gain * c; 2 * gain - 1]%Q).

(** [scipy.signal.filtfilt(b, a, x)] with the default padding: the input
    must be longer than [3 * max(len(a), len(b))]; the initial state is
    then computed, which can fail; the recursion runs last. *)
Definition filtfilt (lib : Library) (b a x : list Q) : result (list Q) :=
  if length x <=? 3 * Nat.max (length a) (length b) then Raise ValueError
  else
    zi ← lfilter_zi lib b a;
    Ok (filtfilt_run lib b a x).

(** The zero-padded array whose windows [medfilt] ranks. *)
Definition zero_padded (volume : list Q) (h : nat) : list Q :=
  np.zeros h ++ volume ++ np.zeros h.

(** The entry of rank [r] (counted from the smallest) of a window. *)
Definition rank (r : nat) (w : list Q) : Q :=
  nth r (merge_sort Qle w) 0%Q.

(** [scipy.signal.medfilt(volume, kernel_size)] on a one-dimensional array:
    the kernel size must be odd; each output is the entry of rank
    [kernel_size // 2] of the window of that size centred on the sample,
    the array being extended by zeros. *)
Definition medfilt (volume : list Q) (kernel_size : nat) : result (list Q) :=
  if negb (kernel_size mod 2 =? 1) then Raise ValueError
  else
    let h := kernel_size / 2 in
    let padded := zero_padded volume h in
    Ok (map (fun i => rank h (take kernel_size (drop i padded)))
            (seq 0 (length volume))).

End signal.

(** ** [DSPFilters] *)

Section DSPFilters.

Variable lib : Library.
Variable sample_rate : Q.

(** [DSPFilters.butterworth_lowpass] *)
Definition butterworth_lowpass (data : list Q) (cutoff_freq : Q) (order : nat)
  : result (list Q) :=
  let nyquist := (sample_rate / 2)%Q in
  normalized_cutoff ← py_div cutoff_freq nyquist;
  '(b, a) ← signal.butter lib order [normalized_cutoff] low;
  signal.filtfilt lib b a data.

(** [DSPFilters.butterworth_highpass] *)
Definition butterworth_highpass (data : list Q) (cutoff_freq : Q) (order : nat)
  : result (list Q) :=
  let nyquist := (sample_rate / 2)%Q in
  normalized_cutoff ← py_div cutoff_freq nyquist;
  '(b, a) ← signal.butter lib order [normalized_cutoff] high;
  signal.filtfilt lib b a data.

(** [DSPFilters.butterworth_bandpass] *)
Definition butterworth_bandpass (data : list Q) (low_freq high_freq : Q) (order : nat)
  : result (list Q) :=
  let nyquist := (sample_rate / 2)%Q in
  lo ← py_div low_freq nyquist;
  hi ← py_div high_freq nyquist;
  '(b, a) ← signal.butter lib order [lo; hi] band;
  signal.filtfilt lib b a data.

(** [DSPFilters.notch_filter] *)
Definition notch_filter (data : list Q) (notch_freq quality_factor : Q)
  : result (list Q) :=
  let nyquist := (sample_rate / 2)%Q in
  normalized_freq ← py_div notch_freq nyquist;
  '(b, a) ← signal.iirnotch lib normalized_freq quality_factor;
  signal.filtfilt lib b a data.

(** [DSPFilters.moving_average] *)
Definition moving_average (data : list Q) (window_size : nat) : result (list Q) :=
  let kernel := map (fun x => (x / Q_of_nat window_size)%Q) (np.ones window_size) in
  padded ← np.pad_edge data (window_size / 2) (window_size / 2);
  filtered ← np.convolve_valid padded kernel;
  Ok (take (length data) filtered).

(** [DSPFilters.median_filter] *)
Definition median_filter (data : list Q) (window_size : nat) : result (list Q) :=
  signal.medfilt data window_size.

(** [DSPFilters.fir_filter] *)
Definition fir_filter (data : list Q) (numtaps : nat) (cutoff : Q) (filter_type : pass_zero)
  : result (list Q) :=
  let nyquist := (sample_rate / 2)%Q in
  normalized_cutoff ← py_div cutoff nyquist;
  coefficients ← firwin lib numtaps normalized_cutoff filter_type;
  signal.filtfilt lib coefficients [1%Q] data.

(** The Filter Specification of the data model: which method is called,
    with its parameters. *)
Inductive FilterSpec : Type :=
  | LowPass (cutoff_freq : Q) (order : nat)
  | HighPass (cutoff_freq : Q) (order : nat)
  | BandPass (low_freq high_freq : Q) (order : nat)
  | Notch (notch_freq quality_factor : Q)
  | MovingAverage (window_size : nat)
  | Median (window_size : nat)
  | FIR (numtaps : nat) (cutoff : Q) (filter_type : pass_zero).

Definition apply_filter (spec : FilterSpec) (data : list Q) : result (list Q) :=
  match spec with
  | LowPass f n => butterworth_lowpass data f n
  | HighPass f n => butterworth_highpass data f n
  | BandPass f1 f2 n => butterworth_bandpass data f1 f2 n
  | Notch f q => notch_filter data f q
  | MovingAverage w => moving_average data w
  | Median w => median_filter data w
  | FIR n f t => fir_filter data n f t
  end.

End DSPFilters.

(** ** The QRS peak detector of [demo_ecg_processing] *)

(** [peaks[-1]] of a non-empty list of indices. *)
Definition last_peak (peaks : list nat) : nat := List.last peaks 0.

(** The body of the scan: sample [i] is appended when it exceeds the
    threshold and both neighbours, and either no peak was accepted yet or
    [i - peaks[-1] > sample_rate * 0.3]. *)
Definition scan_body (sample_rate threshold : Q) (filtered : list Q)
    (peaks : list nat) (i : nat) : result (list nat) :=
  x ← np.getitem filtered i;
  x_prev ← np.getitem filtered (i - 1);
  x_next ← np.getitem filtered (i + 1);
  if Qltb threshold x && Qltb x_prev x && Qltb x_next x then
    if (length peaks =? 0)
       || Qltb (sample_rate * 0.3)%Q (inject_Z (Z.of_nat i - Z.of_nat (last_peak peaks)))
    then Ok (peaks ++ [i])
    else Ok peaks
  else Ok peaks.

(** The rate that is reported: [60 / mean(diff(peaks) / sample_rate)] when
    more than one peak was found, nothing otherwise. *)
Definition detected_rate (sample_rate : Q) (peaks : list nat) : option Q :=
  if 1 <? length peaks then
    let rr_intervals := map (fun d => (inject_Z d / sample_rate)%Q) (np.diff peaks) in
    let avg_rr := np.mean rr_intervals in
    Some (60 / avg_rr)%Q
  else None.

(** Threshold, scan and rate, as in lines 104-118 of [main.py]: the
    threshold, the accepted peak indices and the reported rate. *)
Definition detect_qrs (sample_rate : Q) (filtered : list Q)
  : result (Q * list nat * option Q) :=
  m ← np.max filtered;
  let threshold := (0.5 * m)%Q in
  peaks ← for_each (scan_body sample_rate threshold filtered)
                   (seq 1 (length filtered - 1 - 1)) [];
  Ok (threshold, peaks, detected_rate sample_rate peaks).

(** ** [spectral_entropy] and [moving_average] over binary64

    [np.sum] and the sums of [np.convolve] are written as left-to-right
    sums; the order of the additions plays no part in what is proved
    below. *)

Module IEEE.

Definition np_sum (xs : list float) : float :=
  fold_left PrimFloat.add xs 0%float.

Definition all_zero (xs : list float) : Prop :=
  Forall (fun v => v = 0%float) xs.

Record Spectral : Type := {
  (** the averaged periodogram of [scipy.signal.welch(x, fs, nperseg)]:
      frequencies and PSD *)
  welch_run : float -> nat -> list float -> list float * list float;
  (** [np.log2] *)
  log2 : float -> float;
  (** At a positive sampling frequency, a non-empty all-zero buffer has an
      all-zero periodogram. *)
  welch_zero : forall fs nperseg x,
    (0 <? fs)%float = true -> x <> [] -> all_zero x ->
    all_zero (snd (welch_run fs nperseg x));
}.

(** [scipy.signal.welch(x, fs, nperseg=nperseg)]: a sampling frequency
    that is not positive is refused. *)
Definition welch (lib : Spectral) (fs : float) (nperseg : nat) (x : list float)
  : result (list float * list float) :=
  if (0 <? fs)%float then Ok (welch_run lib fs nperseg x) else Raise ValueError.

(** [FFTAnalyzer.compute_psd] *)
Definition compute_psd (lib : Spectral) (sample_rate : float) (signal_data : list float)
    (nperseg : nat) : result (list float * list float) :=
  '(frequencies, psd) ← welch lib sample_rate nperseg signal_data;
  Ok (frequencies, psd).

(** The normalised bins [psd / np.sum(psd)], and those the mask
    [psd_norm > 0] keeps. *)
Definition normalised (psd : list float) : list float :=
  map (fun p => (p / np_sum psd)%float) psd.

Definition positive_bins (psd_norm : list float) : list float :=
  List.filter (fun p => (0 <? p)%float) psd_norm.

(** [FFTAnalyzer.spectral_entropy] *)
Definition spectral_entropy (lib : Spectral) (sample_rate : float) (signal_data : list float)
  : result float :=
  '(frequencies, psd) ← compute_psd lib sample_rate signal_data 256;
  let psd_norm := normalised psd in
  let psd_norm := positive_bins psd_norm in
  Ok (- np_sum (map (fun p => p * log2 lib p) psd_norm))%float.

(** The window length as a binary64 number. *)
Definition of_nat (n : nat) : float :=
  PrimFloat.of_uint63 (Uint63.of_Z (Z.of_nat n)).

Definition ones (n : nat) : list float := replicate n 1%float.

Definition inner (w x : list float) : float :=
  np_sum (zip_with PrimFloat.mul w x).

(** [np.pad(xs, (l, r), mode='edge')] *)
Definition pad_edge (xs : list float) (l r : nat) : result (list float) :=
  match xs with
  | [] => if (l =? 0) && (r =? 0) then Ok [] else Raise ValueError
  | x :: _ => Ok (replicate l x ++ xs ++ replicate r (List.last xs x))
  end.

(** [np.convolve(a, v, mode='valid')] *)
Definition convolve_valid (a v : list float) : result (list float) :=
  match a, v with
  | [], _ | _, [] => Raise ValueError
  | _, _ =>
      let '(a, v) := if length a <? length v then (v, a) else (a, v) in
      Ok (map (fun k => inner (take (length v) (drop k a)) (reverse v))
              (seq 0 (length a - length v + 1)))
  end.

(** [DSPFilters.moving_average], in binary64 *)
Definition moving_average (data : list float) (window_size : nat) : result (list float) :=
  let kernel := map (fun x => (x / of_nat window_size)%float) (ones window_size) in
  padded ← pad_edge data (window_size / 2) (window_size / 2);
  filtered ← convolve_valid padded kernel;
  Ok (take (length data) filtered).

End IEEE.

(** ** Auxiliary definitions for the statements *)

(** The weight vector after [k] passes of the LMS recursion over the
    window function [win], started at [w0] at index [L]. *)
Fixpoint lms_weights (win : nat -> list Q) (primary : list Q) (mu : Q) (L : nat)
    (w0 : list Q) (k : nat) : list Q :=
  match k with
  | O => w0
  | S k' =>
      let w := lms_weights win primary mu L w0 k' in
      let i := L + k' in
      let error := (nth i primary 0 - np.inner w (win i))%Q in
      np.add w (np.scale (2 * mu * error)%Q (win i))
  end.

(** A one-tap canceller with unit step size and zero initial weight. *)
Definition demo_filter : AdaptiveFilter :=
  {| filter_length := 1; step_size := 1; weights := [0%Q] |}.

(** A stand-in for the numerical kernels, used to run the definitions on
    concrete inputs: a rectangular window, the entrywise modulus in place
    of the transform's, filter designs with SciPy's number of coefficients
    ([N + 1] for a low-pass or high-pass design of order [N], [2 N + 1] for
    a band-pass one), the chord [1 - 2 w] for [cos(pi w)], an initial state
    that is refused for fewer than two coefficients or when the recursion
    coefficients sum to zero, and a recursion that returns its input. *)
Definition demo_library : Library :=
  {| hanning := fun n => replicate n 1%Q;
     fft_abs := map Qabs;
     fft_angle := map (fun _ => 0%Q);
     butter_ba := fun N _ bt =>
       let n := match bt with band => 2 * N + 1 | _ => N + 1 end in
       (np.ones n, np.ones n);
     notch_gain := fun _ => 1%Q;
     cos_pi := fun w => (1 - 2 * w)%Q;
     firwin := fun n _ _ => Ok (replicate n 1%Q);
     lfilter_zi := fun b a =>
       let n := Nat.max (length a) (length b) in
       if (n <? 2) || Qeq_bool (np.sum a) 0 then Raise ValueError
       else Ok (np.zeros (n - 1));
     filtfilt_run := fun _ _ x => x;
     hanning_length := fun n => length_replicate n 1%Q;
     fft_abs_length := length_map Qabs;
     fft_angle_length := length_map (fun _ => 0%Q);
     fft_abs_nonneg := fun x =>
       ltac:(apply Forall_fmap, Forall_true; intros q; apply Qabs_nonneg);
     filtfilt_run_length := fun _ _ x => eq_refl |}.

(** A frequency lies in the inclusive band [[lo, hi]]. *)
Definition in_band (lo hi f : Q) : Prop := (lo <= f)%Q /\ (f <= hi)%Q.

(** Bin [k], of frequency [f] and magnitude [m], is the first
    maximum-magnitude bin of the band: no bin of the band has a larger
    magnitude, and the bins of the band before it have a strictly smaller
    one. *)
Definition first_max_in_band (lo hi : Q) (freqs mags : list Q) (k : nat) (f m : Q) : Prop :=
  freqs !! k = Some f /\ mags !! k = Some m /\ in_band lo hi f /\
  forall j fj mj, freqs !! j = Some fj -> mags !! j = Some mj -> in_band lo hi fj ->
    (mj <= m)%Q /\ (j < k -> (mj < m)%Q).

(** Sample [i] is an interior sample, above the threshold and above both
    of its neighbours. *)
Definition is_candidate (threshold : Q) (filtered : list Q) (i : nat) : Prop :=
  1 <= i /\ i + 1 < length filtered /\
  (threshold < nth i filtered 0)%Q /\
  (nth (i - 1) filtered 0 < nth i filtered 0)%Q /\
  (nth (i + 1) filtered 0 < nth i filtered 0)%Q.

(** [p] is the last of [peaks] before index [i]. *)
Definition previous_peak (peaks : list nat) (i p : nat) : Prop :=
  p ∈ peaks /\ p < i /\ forall q, q ∈ peaks -> q < i -> q <= p.

(** Index [i] lies more than 0.3 s, counted in samples, past index [p]. *)
Definition past_refractory (sample_rate : Q) (i p : nat) : Prop :=
  (sample_rate * 0.3 < inject_Z (Z.of_nat i - Z.of_nat p))%Q.

(** The mean interval between consecutive peaks, in seconds. *)
Definition mean_interval (sample_rate : Q) (peaks : list nat) : Q :=
  np.mean (map (fun d => (inject_Z d / sample_rate)%Q) (np.diff peaks)).

(** The state of the scan after the indices [1], ..., [t]: the accepted
    indices are candidates, in increasing order, and a candidate was
    accepted exactly when it is past the refractory distance of the peak
    accepted before it, if there is one. *)
Definition scanned (sample_rate threshold : Q) (filtered : list Q) (t : nat)
    (peaks : list nat) : Prop :=
  (forall p, p ∈ peaks -> p <= t /\ is_candidate threshold filtered p) /\
  StronglySorted lt peaks /\
  (forall i, i <= t -> is_candidate threshold filtered i ->
     (i ∈ peaks <-> forall p, previous_peak peaks i p -> past_refractory sample_rate i p)).

(** The sample at a signed position, zero outside the buffer. *)
Definition sample_or_zero (data : list Q) (z : Z) : Q :=
  if (z <? 0)%Z then 0%Q else nth (Z.to_nat z) data 0%Q.

(** The window of [window_size] samples centred on index [i]:
    [data[i - h], ..., data[i + h]] for [h = window_size // 2]. *)
Definition centered_window (data : list Q) (window_size i : nat) : list Q :=
  map (fun j => sample_or_zero data (Z.of_nat i - Z.of_nat (window_size / 2) + Z.of_nat j))
      (seq 0 window_size).

(** [m] is a median of [w]: an entry of [w] such that more than half of the
    entries are at most [m] and more than half are at least [m]. *)
Definition is_median (m : Q) (w : list Q) : Prop :=
  m ∈ w /\
  length w < 2 * length (base.filter (fun x => x <= m)%Q w) /\
  length w < 2 * length (base.filter (fun x => m <= x)%Q w).

(** A stand-in for Welch's estimate and the logarithm, used to run
    [spectral_entropy] on concrete buffers: the squared samples as
    periodogram, and [p - 1] for [log2 p]. *)
Definition demo_spectral : IEEE.Spectral :=
  {| IEEE.welch_run := fun fs _ x => (map (fun _ => fs) x, map (fun v => (v * v)%float) x);
     IEEE.log2 := fun p => (p - 1)%float;
     IEEE.welch_zero := fun _ _ x _ _ H =>
       ltac:(apply Forall_fmap; refine (Forall_impl _ _ _ H _);
             intros v Hv; simpl in *; rewrite Hv; reflexivity) |}.

(** ** The filtering cascades of [main.py] *)

(** [demo_ppg_processing], lines 40-48: high-pass at 0.5 Hz, low-pass at
    10 Hz, notch at 50 Hz, each with its default order or quality factor. *)
Definition ppg_filter_pipeline (lib : Library) (sample_rate : Q) (noisy_signal : list Q)
  : result (list Q) :=
  filtered ← butterworth_highpass lib sample_rate noisy_signal 0.5 4;
  filtered ← butterworth_lowpass lib sample_rate filtered 10 4;
  notch_filter lib sample_rate filtered 50 30.

(** [demo_ecg_processing], lines 98-99: band-pass 0.5-40 Hz, then the
    notch at 50 Hz. *)
Definition ecg_filter_pipeline (lib : Library) (sample_rate : Q) (noisy_ecg : list Q)
  : result (list Q) :=
  filtered ← butterworth_bandpass lib sample_rate noisy_ecg 0.5 40 4;
  notch_filter lib sample_rate filtered 50 30.

(** [demo_ecg_processing], lines 98-118: the cascade followed by the peak
    detector. *)
Definition ecg_detect (lib : Library) (sample_rate : Q) (noisy_ecg : list Q)
  : result (Q * list nat * option Q) :=
  filtered ← ecg_filter_pipeline lib sample_rate noisy_ecg;
  detect_qrs sample_rate filtered.

(** ** [CircularBuffer] of [demo_real_time_buffer]

    A [collections.deque] with [maxlen=size]: [append] adds on the right
    and, when the length exceeds [maxlen], drops one item on the left. *)

Record CircularBuffer : Type := {
  buffer : list Q;
  size : nat;
}.

(** [CircularBuffer.__init__] *)
Definition CircularBuffer_init (size : nat) : CircularBuffer :=
  {| buffer := []; size := size |}.

(** [deque.append] under [maxlen] *)
Definition deque_append (maxlen : nat) (d : list Q) (value : Q) : list Q :=
  let d := d ++ [value] in
  if maxlen <? length d then drop 1 d else d.

(** [CircularBuffer.add] *)
Definition add (cb : CircularBuffer) (value : Q) : CircularBuffer :=
  {| buffer := deque_append (size cb) (buffer cb) value; size := size cb |}.

(** [CircularBuffer.is_full] *)
Definition is_full (cb : CircularBuffer) : bool :=
  length (buffer cb) =? size cb.

(** [CircularBuffer.get_data] *)
Definition get_data (cb : CircularBuffer) : list Q := buffer cb.

(** [CircularBuffer.get_mean] *)
Definition get_mean (cb : CircularBuffer) : Q :=
  match buffer cb with
  | [] => 0%Q
  | _ => np.mean (buffer cb)
  end.

(** Python's [a % b] on non-negative integers. *)
Definition py_mod (a b : nat) : result nat :=
  if b =? 0 then Raise ZeroDivisionError else Ok (a mod b).

(** The streaming loop of [demo_real_time_buffer], lines 156-165: every
    sample is added; a window is processed when the buffer is full and the
    index of the sample is a multiple of the buffer size ([and] evaluates
    the remainder only when the buffer is full).  The state is the buffer,
    the index of the next sample and the number of windows processed. *)
Definition stream_body (buffer_size : nat) (st : CircularBuffer * nat * nat) (sample : Q)
  : result (CircularBuffer * nat * nat) :=
  let '(cb, i, processed_windows) := st in
  let cb := add cb sample in
  if is_full cb then
    r ← py_mod i buffer_size;
    if r =? 0 then Ok (cb, i + 1, processed_windows + 1)
    else Ok (cb, i + 1, processed_windows)
  else Ok (cb, i + 1, processed_windows).

Definition stream (buffer_size : nat) (signal : list Q)
  : result (CircularBuffer * nat * nat) :=
  for_each (stream_body buffer_size) signal (CircularBuffer_init buffer_size, 0, 0).


(** * Theorems *)

(** ** The loop combinator *)

Lemma for_each_snoc {S I} (body : S -> I -> result S) idx i s s' :
  for_each body idx s = Ok s' ->
  for_each body (idx ++ [i]) s = body s' i.
Proof.
  revert s. induction idx as [|j idx IH]; intros s H; simpl in *.
  - injection H as ->. destruct (body s' i); reflexivity.
  - destruct (body s j) as [s1|e]; simpl in *; [auto | discriminate].
Qed.

Lemma bind_ok {A B} (r : result A) (f : A -> result B) y :
  r ≫= f = Ok y -> exists a, r = Ok a /\ f a = Ok y.
Proof. destruct r as [a|e]; simpl; [eauto | discriminate]. Qed.

(** ** Rational comparisons *)

Lemma Qltb_lt x y : Qltb x y = true <-> (x < y)%Q.
Proof.
  unfold Qltb. rewrite negb_true_iff. split.
  - intros H. apply Qnot_le_lt. intros Hle. apply Qle_bool_iff in Hle. congruence.
  - intros H. destruct (Qle_bool y x) eqn:E; [|reflexivity].
    apply Qle_bool_iff in E. exfalso. exact (Qlt_not_le _ _ H E).
Qed.

Lemma Qltb_ge x y : Qltb x y = false <-> (y <= x)%Q.
Proof.
  unfold Qltb. rewrite negb_false_iff. apply Qle_bool_iff.
Qed.

Lemma Qeq_bool_false x y : ~ (x == y)%Q -> Qeq_bool x y = false.
Proof.
  intros H. destruct (Qeq_bool x y) eqn:E; [|reflexivity].
  apply Qeq_bool_iff in E. contradiction.
Qed.

Lemma py_div_ok a b : ~ (b == 0)%Q -> py_div a b = Ok (a / b)%Q.
Proof. intros H. unfold py_div. rewrite Qeq_bool_false by exact H. reflexivity. Qed.

Lemma py_div_zero a b : (b == 0)%Q -> py_div a b = Raise ZeroDivisionError.
Proof.
  intros H. unfold py_div. apply Qeq_bool_iff in H. rewrite H. reflexivity.
Qed.

Lemma Q_of_nat_nonzero n : n <> 0 -> ~ (Q_of_nat n == 0)%Q.
Proof.
  intros Hn H. unfold Q_of_nat, Qeq in H. simpl in H. lia.
Qed.

Lemma Q_of_nat_pos n : 0 < n -> (0 < Q_of_nat n)%Q.
Proof. intros Hn. unfold Q_of_nat, Qlt. simpl. lia. Qed.

(** ** Array access *)

Lemma getitem_nth (xs : list Q) i :
  i < length xs -> np.getitem xs i = Ok (nth i xs 0%Q).
Proof.
  intros H. unfold np.getitem.
  destruct (lookup_lt_is_Some_2 xs i H) as [x Hx]. rewrite Hx.
  f_equal. symmetry. apply nth_lookup_Some with (d := 0%Q). exact Hx.
Qed.


(** ** The LMS canceller *)

Section LMS.

Variables (L : nat) (mu : Q) (w0 primary ref : list Q).
Hypothesis w0_length : length w0 = L.
Hypothesis ref_length : length ref = length primary.

Let N := length primary.
Let win := window_before ref L.
Let ws := lms_weights win primary mu L w0.

Lemma reference_window_length i :
  L <= i <= length ref -> length (reference_window ref L i) = L.
Proof.
  intros H. unfold reference_window, np.slice.
  rewrite length_reverse, length_take, length_drop. lia.
Qed.

(** The slice of the code is the window of the [L] samples before [i]. *)
Lemma reference_window_before i :
  L <= i <= length ref -> reference_window ref L i = window_before ref L i.
Proof.
  intros H. apply list_eq; intros j.
  unfold window_before. rewrite list_lookup_fmap.
  destruct (decide (j < L)) as [Hj|Hj].
  - rewrite lookup_seq_lt by lia. simpl.
    unfold reference_window, np.slice.
    rewrite reverse_lookup by (rewrite length_take, length_drop; lia).
    rewrite length_take, length_drop.
    rewrite lookup_take_lt by lia. rewrite lookup_drop.
    replace (i - L + (((i - (i - L)) `min` (length ref - (i - L))) - S j))
      with (i - 1 - j) by lia.
    assert (Hlt : i - 1 - j < length ref) by lia.
    destruct (lookup_lt_is_Some_2 ref _ Hlt) as [x Hx].
    rewrite Hx. f_equal. symmetry. apply nth_lookup_Some with (d := 0%Q). exact Hx.
  - rewrite lookup_seq_ge by lia. simpl.
    apply lookup_ge_None_2. rewrite reference_window_length; lia.
Qed.

Lemma window_before_length i : length (win i) = L.
Proof. unfold win, window_before. rewrite length_map, length_seq. reflexivity. Qed.

Lemma ws_S k :
  ws (S k) =
  np.add (ws k)
    (np.scale (2 * mu * (nth (L + k) primary 0 - np.inner (ws k) (win (L + k))))%Q
              (win (L + k))).
Proof. reflexivity. Qed.

Lemma ws_length k : length (ws k) = L.
Proof.
  induction k as [|k IH]; [exact w0_length|].
  rewrite ws_S. unfold np.add, np.scale.
  rewrite length_zip_with, length_map, IH, window_before_length. lia.
Qed.

(** The state of the loop after [k] passes. *)
Lemma filter_loop k :
  L + k <= N ->
  exists out,
    for_each (filter_body L mu primary ref) (seq L k) (w0, np.zeros N) = Ok (ws k, out) /\
    length out = N /\
    (forall i, L <= i < L + k ->
       out !! i = Some (nth i primary 0 - np.inner (ws (i - L)) (win i))%Q) /\
    (forall i, i < N -> ~ (L <= i < L + k) -> out !! i = Some 0%Q).
Proof.
  induction k as [|k IH]; intros Hk.
  - exists (np.zeros N). simpl. split; [reflexivity|].
    split; [apply length_replicate|].
    split; [intros i Hi; lia|].
    intros i Hi _. apply lookup_replicate_2. exact Hi.
  - destruct IH as (out & Hrun & Hlen & Hdone & Hrest); [lia|].
    rewrite seq_S. rewrite (for_each_snoc _ _ _ _ _ Hrun).
    unfold filter_body.
    rewrite reference_window_before by (rewrite ref_length; fold N; lia).
    fold win. unfold np.dot.
    rewrite ws_length, window_before_length.
    destruct (decide (L = L)) as [_|]; [|congruence]. simpl.
    assert (Hlt : L + k < length primary) by (fold N; lia).
    destruct (lookup_lt_is_Some_2 primary _ Hlt) as [p Hp].
    unfold np.getitem. rewrite Hp. simpl.
    assert (Hnth : nth (L + k) primary 0%Q = p) by (apply nth_lookup_Some with (d := 0%Q); exact Hp).
    eexists. split.
    { rewrite ws_S, Hnth. reflexivity. }
    split; [rewrite length_insert; exact Hlen|].
    split.
    + intros i Hi. destruct (decide (i = L + k)) as [->|Hne].
      * rewrite list_lookup_insert_eq by lia.
        replace (L + k - L) with k by lia. rewrite Hnth. reflexivity.
      * rewrite list_lookup_insert_ne by congruence. apply Hdone. lia.
    + intros i Hi Hout. rewrite list_lookup_insert_ne by lia. apply Hrest; lia.
Qed.

End LMS.

(** C1 (as amended): on a primary signal and a reference of one length [N],
    with more samples than taps [L], [AdaptiveFilter.filter] returns an
    output and leaves a weight vector that are those of the LMS recursion
    run for [i] from [L] to [N-1] in increasing order, where the reference
    window at [i] is the [L] reference samples before [i], most recent first
    ([ref[i-1]], ..., [ref[i-L]]): the estimate is the inner product of the
    current weights with the window, output [i] is [primary[i]] minus the
    estimate, the weights then grow by [2 * step_size * error * window], and
    outputs [0] to [L-1] are zero. *)
Theorem filter_lms_recursion (af : AdaptiveFilter) (primary_signal reference_noise : list Q) :
  well_formed af ->
  length reference_noise = length primary_signal ->
  filter_length af < length primary_signal ->
  exists out w,
    filter af primary_signal reference_noise = Ok (out, set_weights af w) /\
    lms_trace (window_before reference_noise (filter_length af))
      (filter_length af) (length primary_signal) (step_size af)
      (weights af) primary_signal out w.
Proof.
  intros Hwf Hlen HL.
  set (L := filter_length af) in *. set (N := length primary_signal) in *.
  destruct (filter_loop L (step_size af) (weights af) primary_signal reference_noise
              Hwf Hlen (N - L)) as (out & Hrun & Hout & Hdone & Hrest); [fold N; lia|].
  fold N in Hrun, Hout, Hdone, Hrest.
  exists out. eexists. split.
  - unfold filter. fold L N. rewrite Hrun. reflexivity.
  - exists (fun i => lms_weights (window_before reference_noise L) primary_signal
                       (step_size af) L (weights af) (i - L)).
    simpl. replace (L - L) with 0 by lia.
    split; [reflexivity|]. split; [reflexivity|].
    split; [|split; [|exact Hout]].
    + intros i Hi.
      assert (Hlt : i < length primary_signal) by (fold N; lia).
      destruct (lookup_lt_is_Some_2 primary_signal _ Hlt) as [p Hp].
      assert (Hnth : nth i primary_signal 0%Q = p)
        by (apply nth_lookup_Some with (d := 0%Q); exact Hp).
      exists p. split; [exact Hp|]. simpl. split.
      * rewrite <- Hnth. apply Hdone. lia.
      * replace (S i - L) with (S (i - L)) by lia. simpl.
        replace (L + (i - L)) with i by lia. rewrite Hnth. reflexivity.
    + intros i Hi. apply Hrest; lia.
Qed.

Lemma filter_lms_recursion_witness :
  exists out w,
    filter demo_filter [1; 1; 1]%Q [1; 2; 3]%Q = Ok (out, set_weights demo_filter w) /\
    lms_trace (window_before [1; 2; 3]%Q 1) 1 3 1 [0%Q] [1; 1; 1]%Q out w.
Proof.
  apply (filter_lms_recursion demo_filter [1; 1; 1]%Q [1; 2; 3]%Q);
    [reflexivity | reflexivity | simpl; lia].
Defined.

(** C1 (as stated) fails: with one tap, step size 1, zero initial weight,
    primary [1, 1, 1] and reference [1, 2, 3], the call returns
    [0, 1, -3] and the weight [-10]; with the window ending at [i] itself
    ([ref[i]], ..., [ref[i-L+1]]) the recursion would give [-11] at index 2. *)
Lemma filter_window_does_not_end_at_i :
  filter demo_filter [1; 1; 1]%Q [1; 2; 3]%Q
    = Ok ([0; 1; -3]%Q, set_weights demo_filter [(-10)%Q]) /\
  ~ lms_trace (window_ending_at [1; 2; 3]%Q 1) 1 3 1 [0%Q] [1; 1; 1]%Q
      [0; 1; -3]%Q [(-10)%Q].
Proof.
  split; [reflexivity|].
  intros (ws & H1 & _ & Hstep & _ & _).
  destruct (Hstep 1) as (p1 & Hp1 & _ & Hw2); [lia|].
  destruct (Hstep 2) as (p2 & Hp2 & Hout2 & _); [lia|].
  simpl in Hp1, Hp2. injection Hp1 as <-. injection Hp2 as <-.
  rewrite H1 in Hw2. rewrite Hw2 in Hout2.
  vm_compute in Hout2. discriminate Hout2.
Qed.

(** C9: when the primary signal has no more samples than the filter has
    taps, the call returns [N] zeros and the filter object is unchanged. *)
Theorem filter_short_input (af : AdaptiveFilter) (primary_signal reference_noise : list Q) :
  length primary_signal <= filter_length af ->
  filter af primary_signal reference_noise = Ok (np.zeros (length primary_signal), af).
Proof.
  intros H. unfold filter.
  replace (length primary_signal - filter_length af) with 0 by lia.
  simpl. destruct af; reflexivity.
Qed.

Lemma filter_short_input_witness :
  filter (AdaptiveFilter_init 3 0.01%Q) [5; 7]%Q [1; 2]%Q
    = Ok ([0; 0]%Q, AdaptiveFilter_init 3 0.01%Q).
Proof.
  apply (filter_short_input (AdaptiveFilter_init 3 0.01%Q) [5; 7]%Q [1; 2]%Q).
  simpl. lia.
Defined.

(** ** Boolean masks and [argmax] *)

Lemma select_length {A} (mask : list bool) (xs : list A) :
  length mask = length xs ->
  length (np.select mask xs) = length (List.filter id mask).
Proof.
  revert xs. induction mask as [|b mask IH]; intros [|x xs] H; simpl in *; try lia.
  destruct b; simpl; rewrite IH by lia; reflexivity.
Qed.

Lemma select_map {A B} (f : A -> B) mask (xs : list A) :
  np.select mask (map f xs) = map f (np.select mask xs).
Proof.
  revert xs. induction mask as [|b mask IH]; intros [|x xs]; simpl; try reflexivity.
  destruct b; simpl; rewrite IH; reflexivity.
Qed.

(** Splitting the selected bins at one of them splits the bins themselves:
    the bins before it that the test keeps are those selected before it,
    and so after it. *)
Lemma select_split {A} (P : A -> bool) (zs pre' post' : list A) z :
  np.select (map P zs) zs = pre' ++ z :: post' ->
  exists pre post,
    zs = pre ++ z :: post /\ P z = true /\
    np.select (map P pre) pre = pre' /\ np.select (map P post) post = post'.
Proof.
  revert pre'. induction zs as [|x zs IH]; intros pre' H; simpl in H.
  - destruct pre'; discriminate.
  - destruct (P x) eqn:Px.
    + destruct pre' as [|y pre']; simpl in H.
      * injection H as Hx Hpost. subst z. exists [], zs. auto.
      * injection H as Hx H. subst y.
        destruct (IH _ H) as (pre & post & -> & Pz & Hpre & Hpost).
        exists (x :: pre), post. simpl. rewrite Px, Hpre. auto.
    + destruct (IH _ H) as (pre & post & -> & Pz & Hpre & Hpost).
      exists (x :: pre), post. simpl. rewrite Px. auto.
Qed.

Lemma select_elem {A} (P : A -> bool) (zs : list A) z :
  z ∈ zs -> P z = true -> z ∈ np.select (map P zs) zs.
Proof.
  induction zs as [|x zs IH]; intros Hin Pz; [inversion Hin|].
  simpl. apply elem_of_cons in Hin as [->|Hin].
  - rewrite Pz. left.
  - destruct (P x); [right|]; auto.
Qed.

Lemma select_nil {A} (P : A -> bool) (zs : list A) :
  np.select (map P zs) zs = [] -> forall z, z ∈ zs -> P z = false.
Proof.
  intros H z Hin. destruct (P z) eqn:Pz; [|reflexivity].
  pose proof (select_elem P zs z Hin Pz) as Hsel. rewrite H in Hsel. inversion Hsel.
Qed.

Lemma argmax_from_spec xs : forall best bi i,
  let r := np.argmax_from best bi i xs in
  (r = bi /\ Forall (fun x => x <= best)%Q xs) \/
  (exists pre m post,
     xs = pre ++ m :: post /\ r = i + length pre /\ (best < m)%Q /\
     Forall (fun x => x < m)%Q pre /\ Forall (fun x => x <= m)%Q post).
Proof.
  induction xs as [|x xs IH]; intros best bi i; simpl.
  - left. split; [reflexivity | constructor].
  - destruct (Qltb best x) eqn:E.
    + apply Qltb_lt in E. right.
      destruct (IH x i (S i)) as [[Hr Hall] | (pre & m & post & -> & Hr & Hlt & Hpre & Hpost)].
      * exists [], x, xs. simpl. repeat split; auto; lia.
      * exists (x :: pre), m, post. simpl. repeat split; auto; try lia.
        eapply Qlt_trans; eauto.
    + apply Qltb_ge in E.
      destruct (IH best bi (S i)) as [[Hr Hall] | (pre & m & post & -> & Hr & Hlt & Hpre & Hpost)].
      * left. split; [exact Hr|]. constructor; assumption.
      * right. exists (x :: pre), m, post. simpl. repeat split; auto; try lia.
        constructor; [|exact Hpre]. eapply Qle_lt_trans; eauto.
Qed.

(** [np.argmax] returns the position of the first entry that no entry
    exceeds: the entries before it are strictly smaller. *)
Lemma argmax_spec xs :
  xs <> [] ->
  exists pre m post,
    xs = pre ++ m :: post /\ np.argmax xs = Ok (length pre) /\
    Forall (fun x => x < m)%Q pre /\ Forall (fun x => x <= m)%Q post.
Proof.
  destruct xs as [|x xs]; [congruence|]. intros _. simpl.
  destruct (argmax_from_spec xs x 0 1) as [[Hr Hall] | (pre & m & post & -> & Hr & Hlt & Hpre & Hpost)].
  - exists [], x, xs. simpl. rewrite Hr. repeat split; auto.
  - exists (x :: pre), m, post. simpl. rewrite Hr. repeat split; auto.
Qed.

Lemma select_zip {A B} mask (xs : list A) (ys : list B) :
  length xs = length ys ->
  np.select mask xs = (np.select mask (zip xs ys)).*1 /\
  np.select mask ys = (np.select mask (zip xs ys)).*2.
Proof.
  revert xs ys. induction mask as [|b mask IH]; intros [|x xs] [|y ys] H;
    simpl in *; try lia; auto.
  destruct (IH xs ys) as [H1 H2]; [lia|].
  destruct b; simpl; [split; f_equal; assumption | split; assumption].
Qed.

(** The search over the bins that a test [P] on the frequency keeps. *)
Lemma band_search (P : Q -> bool) (freqs mags : list Q) :
  length freqs = length mags ->
  let mask := map P freqs in
  let fs := np.select mask freqs in
  let ms := np.select mask mags in
  (ms = [] /\ forall k fk, freqs !! k = Some fk -> P fk = false) \/
  (exists r k f m,
     np.argmax ms = Ok r /\ fs !! r = Some f /\ ms !! r = Some m /\
     freqs !! k = Some f /\ mags !! k = Some m /\ P f = true /\
     forall j fj mj, freqs !! j = Some fj -> mags !! j = Some mj -> P fj = true ->
       (mj <= m)%Q /\ (j < k -> (mj < m)%Q)).
Proof.
  intros Hlen mask fs ms.
  set (zs := zip freqs mags).
  set (Pz := fun z : Q * Q => P (fst z)).
  assert (Hmask : mask = map Pz zs).
  { unfold mask, Pz, zs. rewrite <- (fst_zip freqs mags) at 1 by lia.
    rewrite <- list_fmap_compose. reflexivity. }
  destruct (select_zip mask freqs mags Hlen) as [Hfs Hms].
  fold fs zs in Hfs. fold ms zs in Hms.
  assert (Hz : forall j fj mj, freqs !! j = Some fj -> mags !! j = Some mj ->
                 zs !! j = Some (fj, mj)).
  { intros j fj mj Hf Hm. unfold zs. apply lookup_zip_with_Some. eauto. }
  destruct (np.select mask zs) as [|z0 sel0] eqn:Hsel.
  - left. split; [rewrite Hms; reflexivity|].
    intros k fk Hk.
    assert (Hlt : k < length mags) by (rewrite <- Hlen; eapply lookup_lt_Some; eauto).
    destruct (lookup_lt_is_Some_2 mags _ Hlt) as [mk Hmk].
    rewrite Hmask in Hsel.
    apply (select_nil Pz zs Hsel (fk, mk)).
    apply list_elem_of_lookup. exists k. auto.
  - right.
    destruct (argmax_spec ms) as (pre' & m & post' & Hms' & Harg & Hpre & Hpost).
    { rewrite Hms. discriminate. }
    rewrite Hms in Hms'. rewrite <- Hsel in Hms', Hfs, Hms.
    apply fmap_app_inv in Hms' as (selpre & sel' & Hpre' & Hsel' & Hall).
    symmetry in Hsel'. apply fmap_cons_inv in Hsel' as ([f m'] & selpost & Hm' & Hpost' & ->).
    simpl in Hm'. subst m'.
    rewrite Hmask in Hall.
    destruct (select_split Pz zs selpre selpost (f, m) Hall)
      as (pre & post & Hzs & HP & Hselpre & Hselpost).
    assert (Hlenpre : length pre' = length selpre) by (rewrite Hpre', length_fmap; reflexivity).
    exists (length pre'), (length pre), f, m.
    split; [exact Harg|].
    split. { rewrite Hfs, Hmask, Hall, fmap_app, Hlenpre.
             rewrite <- (length_fmap fst selpre). apply list_lookup_middle. reflexivity. }
    split. { rewrite Hms, Hmask, Hall, fmap_app, Hlenpre.
             rewrite <- (length_fmap snd selpre). apply list_lookup_middle. reflexivity. }
    assert (Hfk : zs !! length pre = Some (f, m))
      by (rewrite Hzs; apply list_lookup_middle; reflexivity).
    unfold zs in Hfk. apply lookup_zip_with_Some in Hfk as (f' & m' & Heq & Hf' & Hm').
    injection Heq as <- <-.
    split; [exact Hf'|]. split; [exact Hm'|]. split; [exact HP|].
    intros j fj mj Hfj Hmj HPj.
    pose proof (Hz j fj mj Hfj Hmj) as Hj. rewrite Hzs in Hj.
    destruct (Nat.lt_total j (length pre)) as [Hlt | [-> | Hgt]].
    + rewrite lookup_app_l in Hj by exact Hlt.
      assert (Hin : (fj, mj) ∈ np.select (map Pz pre) pre).
      { apply select_elem; [|exact HPj]. apply list_elem_of_lookup. eauto. }
      rewrite Hselpre in Hin.
      assert (Hin' : mj ∈ pre').
      { rewrite Hpre'. apply (list_elem_of_fmap_2 snd) in Hin. exact Hin. }
      rewrite Forall_forall in Hpre. pose proof (Hpre mj Hin') as Hlt'.
      split; [apply Qlt_le_weak; exact Hlt' | intros _; exact Hlt'].
    + rewrite list_lookup_middle in Hj by reflexivity. injection Hj as <- <-.
      split; [apply Qle_refl | intros Hc; lia].
    + rewrite lookup_app_r in Hj by lia.
      destruct (j - length pre) as [|d] eqn:Hd; [lia|]. simpl in Hj.
      assert (Hin : (fj, mj) ∈ np.select (map Pz post) post).
      { apply select_elem; [|exact HPj]. apply list_elem_of_lookup. eauto. }
      rewrite Hselpost in Hin.
      assert (Hin' : mj ∈ post').
      { rewrite Hpost'. apply (list_elem_of_fmap_2 snd) in Hin. exact Hin. }
      rewrite Forall_forall in Hpost.
      split; [apply Hpost; exact Hin' | intros Hc; lia].
Qed.

Lemma select_Forall {A} (P : A -> Prop) mask (xs : list A) :
  Forall P xs -> Forall P (np.select mask xs).
Proof.
  intros H. revert mask. induction H as [|x xs Hx Hxs IH]; intros [|b mask]; simpl;
    try constructor.
  destruct b; [constructor|]; auto.
Qed.

(** Settle a shape test whose two sides agree. *)
Ltac shapes_agree :=
  match goal with
  | |- context [decide (?a = ?b)] =>
      let Hc := fresh in
      destruct (decide (a = b)) as [_|Hc];
      [| exfalso; apply Hc; solve [reflexivity | assumption | lia | congruence]]
  end.

Lemma sum_from_nonneg xs : forall acc,
  (0 <= acc)%Q -> Forall (Qle 0) xs -> (0 <= fold_left Qplus xs acc)%Q.
Proof.
  induction xs as [|x xs IH]; intros acc Hacc Hall; simpl; [exact Hacc|].
  inversion Hall as [|? ? Hx Hxs]; subst. apply IH; [|exact Hxs].
  rewrite <- (Qplus_0_r 0). apply Qplus_le_compat; assumption.
Qed.

Lemma mean_nonneg xs : xs <> [] -> Forall (Qle 0) xs -> (0 <= np.mean xs)%Q.
Proof.
  intros Hne Hall. unfold np.mean.
  apply Qle_shift_div_l.
  - apply Q_of_nat_pos. destruct xs; [congruence | simpl; lia].
  - rewrite Qmult_0_l. apply sum_from_nonneg; [apply Qle_refl | exact Hall].
Qed.

(** ** [FFTAnalyzer] *)

Section FFTAnalyzer.

Variable lib : Library.
Variable sample_rate : Q.

Lemma fftfreq_ok n :
  ~ (sample_rate == 0)%Q -> n <> 0 ->
  exists val rest,
    np.fftfreq n (1 / sample_rate) = Ok ((inject_Z 0 * val)%Q :: rest) /\
    length rest = n - 1.
Proof.
  intros sample_rate_nonzero Hn. unfold np.fftfreq.
  rewrite py_div_ok.
  2:{ intros H. apply Qmult_integral in H as [H|H].
      - exact (Q_of_nat_nonzero n Hn H).
      - apply sample_rate_nonzero.
        assert (H1 : (sample_rate * (1 / sample_rate) == 1)%Q)
          by (field; exact sample_rate_nonzero).
        rewrite H in H1. rewrite Qmult_0_r in H1. discriminate H1. }
  cbv beta iota delta [mbind result_bind].
  assert (HN : (n - 1) / 2 + 1 = S ((n - 1) / 2)) by lia. rewrite HN.
  rewrite <- cons_seq. cbn [map app].
  eexists _, _. split; [reflexivity|].
  rewrite length_map, length_app, !length_map, !length_seq.
  assert ((n - 1) / 2 <= n - 1) by (apply Nat.Div0.div_le_upper_bound; lia).
  lia.
Qed.

(** The spectrum of a non-empty buffer at a non-zero sampling rate: as
    many magnitudes as frequencies, at least one, none negative. *)
Lemma compute_fft_ok signal_data :
  ~ (sample_rate == 0)%Q -> signal_data <> [] ->
  exists freqs mags phase,
    compute_fft lib sample_rate signal_data = Ok (freqs, mags, phase) /\
    length freqs = length mags /\ mags <> [] /\ Forall (Qle 0) mags.
Proof.
  intros sample_rate_nonzero Hne. unfold compute_fft.
  remember (length signal_data) as n eqn:En.
  assert (Hn : n <> 0) by (subst n; destruct signal_data; simpl; congruence).
  unfold np.multiply. rewrite hanning_length. shapes_agree. simpl.
  remember (zip_with Qmult signal_data (hanning lib n)) as windowed eqn:Ew.
  assert (Hw : length windowed = n)
    by (subst windowed; rewrite length_zip_with, hanning_length, <- En; apply Nat.min_id).
  assert (Hpolar : fft_polar lib windowed = Ok (fft_abs lib windowed, fft_angle lib windowed)).
  { unfold fft_polar. destruct windowed; [simpl in Hw; congruence | reflexivity]. }
  rewrite Hpolar. simpl.
  rewrite py_div_ok by exact sample_rate_nonzero. simpl.
  destruct (fftfreq_ok n sample_rate_nonzero Hn) as (val & rest & -> & Hrest). simpl.
  set (f0 := (inject_Z 0 * val)%Q).
  assert (Hf0 : Qle_bool 0 f0 = true).
  { apply Qle_bool_iff. unfold f0. rewrite Qmult_0_l. apply Qle_refl. }
  rewrite Hf0.
  set (mask := true :: map (fun f => Qle_bool 0 f) rest).
  assert (Hmask : length mask = n) by (unfold mask; simpl; rewrite length_map; lia).
  unfold np.getmask.
  assert (Hlen1 : length mask = length (f0 :: rest)) by (rewrite Hmask; simpl; lia).
  assert (Hlen2 : length mask = length (fft_abs lib windowed))
    by (rewrite fft_abs_length; lia).
  assert (Hlen3 : length mask = length (fft_angle lib windowed))
    by (rewrite fft_angle_length; lia).
  do 3 shapes_agree. cbv beta iota delta [mbind result_bind].
  eexists _, _, _. split; [reflexivity|].
  split; [|split].
  - rewrite length_map, !select_length by assumption. reflexivity.
  - intros H. apply (f_equal length) in H.
    rewrite length_map, select_length in H by assumption.
    unfold mask in H. simpl in H. lia.
  - apply Forall_fmap.
    pose proof (select_Forall _ mask _ (fft_abs_nonneg lib windowed)) as Hnn.
    eapply Forall_impl; [exact Hnn|]. intros m Hm. simpl.
    apply Qle_shift_div_l; [apply Q_of_nat_pos; lia|].
    rewrite Qmult_0_l. apply Qmult_le_0_compat; [exact Hm | discriminate].
Qed.

(** [compute_fft] raises on an empty buffer ([np.fft.fft]) and at a zero
    sampling rate (the division [1 / sample_rate]). *)
Lemma compute_fft_inv signal_data r :
  compute_fft lib sample_rate signal_data = Ok r ->
  ~ (sample_rate == 0)%Q /\ signal_data <> [].
Proof.
  intros H. split.
  - intros Hz. unfold compute_fft in H.
    destruct (np.multiply _ _) as [w|]; simpl in H; [|discriminate].
    destruct (fft_polar lib w) as [[? ?]|]; simpl in H; [|discriminate].
    rewrite (py_div_zero 1 sample_rate Hz) in H. discriminate.
  - intros ->. unfold compute_fft in H. simpl in H.
    unfold np.multiply in H. rewrite hanning_length in H. simpl in H.
    destruct (hanning lib 0); simpl in H; discriminate.
Qed.

Lemma compute_fft_shape signal_data freqs mags phase :
  compute_fft lib sample_rate signal_data = Ok (freqs, mags, phase) ->
  length freqs = length mags /\ mags <> [] /\ Forall (Qle 0) mags.
Proof.
  intros H. destruct (compute_fft_inv _ _ H) as [Hsr Hne].
  destruct (compute_fft_ok signal_data Hsr Hne) as (f' & m' & p' & H' & Hshape).
  rewrite H in H'. injection H' as <- <- <-. exact Hshape.
Qed.

Lemma band_test lo hi f :
  Qle_bool lo f && Qle_bool f hi = true <-> in_band lo hi f.
Proof.
  unfold in_band. rewrite andb_true_iff, !Qle_bool_iff. reflexivity.
Qed.

Lemma find_dominant_frequency_cases signal_data lo hi freqs mags phase :
  compute_fft lib sample_rate signal_data = Ok (freqs, mags, phase) ->
  length freqs = length mags ->
  ((forall k fk, freqs !! k = Some fk -> ~ in_band lo hi fk) /\
   find_dominant_frequency lib sample_rate signal_data (lo, hi) = Ok (0%Q, 0%Q)) \/
  (exists k f m,
     first_max_in_band lo hi freqs mags k f m /\
     find_dominant_frequency lib sample_rate signal_data (lo, hi) = Ok (f, m)).
Proof.
  intros Hfft Hlen. unfold find_dominant_frequency. rewrite Hfft.
  cbv beta iota delta [mbind result_bind fst snd].
  set (P := fun f => Qle_bool lo f && Qle_bool f hi).
  unfold np.getmask. rewrite length_map. do 2 shapes_agree.
  destruct (band_search P freqs mags Hlen)
    as [[Hnil Hnone] | (r & k & f & m & Harg & Hfr & Hmr & Hfk & Hmk & HP & Hmax)].
  - left. split.
    + intros k fk Hk Hin. apply band_test in Hin. fold (P fk) in Hin.
      rewrite (Hnone k fk Hk) in Hin. discriminate.
    + rewrite Hnil. reflexivity.
  - right. exists k, f, m. split.
    + split; [exact Hfk|]. split; [exact Hmk|]. split; [apply band_test; exact HP|].
      intros j fj mj Hfj Hmj Hin. apply (Hmax j fj mj Hfj Hmj).
      apply band_test. exact Hin.
    + assert (Hpos : (length (np.select (map P freqs) mags) =? 0) = false).
      { apply Nat.eqb_neq. apply lookup_lt_Some in Hmr. lia. }
      rewrite Hpos, Harg. cbv beta iota delta [mbind result_bind].
      unfold np.getitem. rewrite Hfr, Hmr. reflexivity.
Qed.

(** C2: [find_dominant_frequency] looks only at the bins of the computed
    spectrum whose frequency lies in the inclusive band [[lo, hi]]: when
    there is none it returns [(0, 0)]; otherwise it returns the frequency
    and the magnitude of a bin of the band whose magnitude no bin of the
    band exceeds, and which is the first such bin. *)
Theorem find_dominant_frequency_spec (signal_data : list Q) (lo hi : Q)
    (freqs mags phase : list Q) :
  compute_fft lib sample_rate signal_data = Ok (freqs, mags, phase) ->
  ((forall k fk, freqs !! k = Some fk -> ~ in_band lo hi fk) /\
   find_dominant_frequency lib sample_rate signal_data (lo, hi) = Ok (0%Q, 0%Q)) \/
  (exists k f m,
     first_max_in_band lo hi freqs mags k f m /\
     find_dominant_frequency lib sample_rate signal_data (lo, hi) = Ok (f, m)).
Proof.
  intros Hfft. destruct (compute_fft_shape _ _ _ _ Hfft) as (Hlen & _ & _).
  apply (find_dominant_frequency_cases _ _ _ _ _ _ Hfft Hlen).
Qed.

(** C3: [extract_heart_rate] returns as rate 60 times the frequency that
    the dominant-frequency search finds over [[0.67, 3.33]] Hz, and as
    confidence the magnitude of that peak divided by the mean magnitude of
    the whole spectrum of the buffer, or 0 when that mean is 0. *)
Theorem extract_heart_rate_spec (ppg_signal : list Q) (f m : Q) :
  find_dominant_frequency lib sample_rate ppg_signal (0.67%Q, 3.33%Q) = Ok (f, m) ->
  exists freqs mags phase confidence,
    compute_fft lib sample_rate ppg_signal = Ok (freqs, mags, phase) /\
    extract_heart_rate lib sample_rate ppg_signal = Ok ((f * 60)%Q, confidence) /\
    ((np.mean mags == 0)%Q -> confidence = 0%Q) /\
    (~ (np.mean mags == 0)%Q -> confidence = (m / np.mean mags)%Q).
Proof.
  intros Hfdf.
  assert (Hfft : exists freqs mags phase,
            compute_fft lib sample_rate ppg_signal = Ok (freqs, mags, phase)).
  { unfold find_dominant_frequency in Hfdf.
    apply bind_ok in Hfdf as ([[freqs mags] phase] & H & _). eauto. }
  destruct Hfft as (freqs & mags & phase & Hfft).
  destruct (compute_fft_shape _ _ _ _ Hfft) as (Hlen & Hmags & Hnn).
  pose proof (mean_nonneg mags Hmags Hnn) as Hmean.
  unfold extract_heart_rate. rewrite Hfdf, Hfft.
  cbv beta iota delta [mbind result_bind].
  destruct (Qltb 0 (np.mean mags)) eqn:E.
  - apply Qltb_lt in E.
    exists freqs, mags, phase, (m / np.mean mags)%Q.
    repeat split; auto.
    intros H0. rewrite H0 in E. exfalso. exact (Qlt_irrefl _ E).
  - apply Qltb_ge in E.
    exists freqs, mags, phase, 0%Q.
    repeat split; auto.
    intros Hnz. exfalso. apply Hnz. apply Qle_antisym; assumption.
Qed.

End FFTAnalyzer.

Lemma find_dominant_frequency_spec_witness :
  ((forall k fk, [0 # 4; 4 # 4]%Q !! k = Some fk -> ~ in_band 0.5 4 fk) /\
   find_dominant_frequency demo_library 4 [1; 5; 2; 3]%Q (0.5, 4)%Q = Ok (0%Q, 0%Q)) \/
  (exists k f m,
     first_max_in_band 0.5 4 [0 # 4; 4 # 4]%Q [2 # 4; 10 # 4]%Q k f m /\
     find_dominant_frequency demo_library 4 [1; 5; 2; 3]%Q (0.5, 4)%Q = Ok (f, m)).
Proof.
  apply (find_dominant_frequency_spec demo_library 4 [1; 5; 2; 3]%Q 0.5 4
           [0 # 4; 4 # 4]%Q [2 # 4; 10 # 4]%Q [0; 0]%Q).
  reflexivity.
Defined.

Lemma extract_heart_rate_spec_witness :
  exists freqs mags phase confidence,
    compute_fft demo_library 4 [1; 5; 2; 3]%Q = Ok (freqs, mags, phase) /\
    extract_heart_rate demo_library 4 [1; 5; 2; 3]%Q = Ok ((4 # 4) * 60, confidence)%Q /\
    ((np.mean mags == 0)%Q -> confidence = 0%Q) /\
    (~ (np.mean mags == 0)%Q -> confidence = ((10 # 4) / np.mean mags)%Q).
Proof.
  apply (extract_heart_rate_spec demo_library 4 [1; 5; 2; 3]%Q (4 # 4) (10 # 4)).
  reflexivity.
Defined.

(** An empty buffer and a zero sampling rate are refused before any search. *)
Example find_dominant_frequency_refused :
  find_dominant_frequency demo_library 500 [] (0.5, 4)%Q = Raise ValueError /\
  find_dominant_frequency demo_library 0 [1; 5; 2; 3]%Q (0.5, 4)%Q = Raise ZeroDivisionError.
Proof. split; reflexivity. Qed.

(** What the search returns on small spectra: the first of two tied bins,
    and [(0, 0)] when the band holds no bin. *)
Example find_dominant_frequency_tie :
  compute_fft demo_library 8 [0; 3; 0; 0; 0; 0; 0; 3]%Q
    = Ok ([0 # 8; 8 # 8; 16 # 8; 24 # 8]%Q, [0 # 8; 6 # 8; 0 # 8; 0 # 8]%Q, [0; 0; 0; 0]%Q) /\
  find_dominant_frequency demo_library 8 [3; 3; 3; 0; 0; 0; 0; 3]%Q (1, 2)%Q
    = Ok ((8 # 8)%Q, (6 # 8)%Q) /\
  find_dominant_frequency demo_library 8 [3; 3; 3; 0; 0; 0; 0; 3]%Q (5, 9)%Q
    = Ok (0%Q, 0%Q).
Proof. vm_compute. auto. Qed.

(** ** The QRS peak detector *)

Lemma maximum_ge_l a b : (a <= np.maximum a b)%Q.
Proof.
  unfold np.maximum. destruct (Qle_bool b a) eqn:E; [apply Qle_refl|].
  destruct (Qlt_le_dec b a) as [H|H]; [|exact H].
  apply Qlt_le_weak, Qle_bool_iff in H. congruence.
Qed.

Lemma maximum_ge_r a b : (b <= np.maximum a b)%Q.
Proof.
  unfold np.maximum. destruct (Qle_bool b a) eqn:E; [|apply Qle_refl].
  apply Qle_bool_iff. exact E.
Qed.

Lemma maximum_cases a b : np.maximum a b = a \/ np.maximum a b = b.
Proof. unfold np.maximum. destruct (Qle_bool b a); auto. Qed.

Lemma fold_maximum_spec xs : forall x,
  let m := fold_left np.maximum xs x in
  m ∈ x :: xs /\ forall y, y ∈ x :: xs -> (y <= m)%Q.
Proof.
  induction xs as [|a xs IH]; intros x; simpl.
  - split; [left|]. intros y Hy. apply list_elem_of_singleton in Hy as ->. apply Qle_refl.
  - destruct (IH (np.maximum x a)) as [Hin Hmax]. split.
    + apply elem_of_cons in Hin as [Heq|Hin].
      * rewrite Heq. destruct (maximum_cases x a) as [->| ->]; [left | right; left].
      * right; right. exact Hin.
    + intros y Hy.
      assert (Hm : (np.maximum x a <= fold_left np.maximum xs (np.maximum x a))%Q)
        by (apply Hmax; left).
      apply elem_of_cons in Hy as [->|Hy].
      * eapply Qle_trans; [apply maximum_ge_l | exact Hm].
      * apply elem_of_cons in Hy as [->|Hy].
        -- eapply Qle_trans; [apply maximum_ge_r | exact Hm].
        -- apply Hmax. right. exact Hy.
Qed.

(** [np.max] of a non-empty array is one of its entries and bounds them all. *)
Lemma max_spec xs :
  xs <> [] -> exists m, np.max xs = Ok m /\ m ∈ xs /\ forall y, y ∈ xs -> (y <= m)%Q.
Proof.
  destruct xs as [|x xs]; [congruence|]. intros _.
  exists (fold_left np.maximum xs x). split; [reflexivity|].
  apply fold_maximum_spec.
Qed.

Section Scan.

Variables (sample_rate threshold : Q) (filtered : list Q).

Let candidate := is_candidate threshold filtered.
Let clear := past_refractory sample_rate.

(** One pass of the scan: the index is appended exactly when it is a
    candidate and no peak was accepted yet or the last accepted one is
    more than the refractory distance behind. *)
Lemma scan_body_spec peaks i :
  1 <= i -> i + 1 < length filtered ->
  (candidate i /\ (peaks = [] \/ clear i (last_peak peaks)) /\
   scan_body sample_rate threshold filtered peaks i = Ok (peaks ++ [i])) \/
  ((~ candidate i \/ (peaks <> [] /\ ~ clear i (last_peak peaks))) /\
   scan_body sample_rate threshold filtered peaks i = Ok peaks).
Proof.
  intros H1 H2. unfold scan_body.
  rewrite !getitem_nth by lia. cbv beta iota delta [mbind result_bind].
  unfold candidate, is_candidate, clear, past_refractory.
  destruct (Qltb threshold (nth i filtered 0%Q)) eqn:E1; simpl.
  2:{ right. split; [|reflexivity]. left. intros (_ & _ & H & _).
      apply Qltb_lt in H. congruence. }
  destruct (Qltb (nth (i - 1) filtered 0%Q) (nth i filtered 0%Q)) eqn:E2; simpl.
  2:{ right. split; [|reflexivity]. left. intros (_ & _ & _ & H & _).
      apply Qltb_lt in H. congruence. }
  destruct (Qltb (nth (i + 1) filtered 0%Q) (nth i filtered 0%Q)) eqn:E3; simpl.
  2:{ right. split; [|reflexivity]. left. intros (_ & _ & _ & _ & H).
      apply Qltb_lt in H. congruence. }
  apply Qltb_lt in E1, E2, E3.
  destruct peaks as [|p0 peaks'] eqn:Ep.
  - left. simpl. auto 10.
  - rewrite <- Ep. replace (length peaks =? 0) with false
      by (subst peaks; reflexivity).
    simpl.
    destruct (Qltb _ _) eqn:E4.
    + apply Qltb_lt in E4. left. auto 10.
    + right. split; [|reflexivity]. right. split; [subst; discriminate|].
      intros H. apply Qltb_lt in H. congruence.
Qed.

Lemma last_peak_max peaks :
  StronglySorted lt peaks -> peaks <> [] ->
  last_peak peaks ∈ peaks /\ forall q, q ∈ peaks -> q <= last_peak peaks.
Proof.
  intros Hs Hne. unfold last_peak.
  pose proof (app_removelast_last 0 Hne) as Hsplit.
  set (l := List.last peaks 0) in *. set (init := removelast peaks) in *.
  rewrite Hsplit in Hs |- *. split.
  - apply elem_of_app. right. left.
  - intros q Hq. apply elem_of_app in Hq as [Hq|Hq].
    + apply Nat.lt_le_incl.
      apply (StronglySorted_app_1_elem_of lt init [l] q l Hs Hq). left.
    + apply list_elem_of_singleton in Hq as ->. reflexivity.
Qed.

(** When every accepted peak lies before [i], the previous peak of [i] is
    the last one accepted. *)
Lemma previous_peak_last peaks i p :
  StronglySorted lt peaks -> (forall q, q ∈ peaks -> q < i) ->
  previous_peak peaks i p <-> peaks <> [] /\ p = last_peak peaks.
Proof.
  intros Hs Hlt. split.
  - intros (Hin & Hpi & Hmax).
    assert (Hne : peaks <> []) by (intros ->; inversion Hin).
    split; [exact Hne|].
    destruct (last_peak_max peaks Hs Hne) as [Hl Hle].
    apply Nat.le_antisymm; [apply Hle; exact Hin | apply Hmax; auto].
  - intros [Hne ->]. destruct (last_peak_max peaks Hs Hne) as [Hl Hle].
    split; [exact Hl|]. split; [apply Hlt; exact Hl|]. intros q Hq _. apply Hle. exact Hq.
Qed.

Lemma previous_peak_snoc peaks i j p :
  i <= j -> previous_peak (peaks ++ [j]) i p <-> previous_peak peaks i p.
Proof.
  intros Hij. unfold previous_peak. split.
  - intros (Hin & Hp & Hmax). apply elem_of_app in Hin as [Hin|Hin].
    + split; [exact Hin|]. split; [exact Hp|]. intros q Hq. apply Hmax.
      apply elem_of_app. left. exact Hq.
    + apply list_elem_of_singleton in Hin. lia.
  - intros (Hin & Hp & Hmax). split; [apply elem_of_app; left; exact Hin|].
    split; [exact Hp|]. intros q Hq Hqi. apply elem_of_app in Hq as [Hq|Hq].
    + apply Hmax; assumption.
    + apply list_elem_of_singleton in Hq. lia.
Qed.

Lemma scan_loop t :
  t <= length filtered - 2 ->
  exists peaks,
    for_each (scan_body sample_rate threshold filtered) (seq 1 t) [] = Ok peaks /\
    scanned sample_rate threshold filtered t peaks.
Proof.
  induction t as [|t IH]; intros Ht.
  - exists []. split; [reflexivity|]. split; [|split].
    + intros p Hp. inversion Hp.
    + constructor.
    + intros i Hi Hc. destruct Hc as [Hc _]. lia.
  - destruct IH as (peaks & Hrun & Hin & Hs & Hiff); [lia|].
    assert (Hbefore : forall q, q ∈ peaks -> q < S t)
      by (intros q Hq; destruct (Hin q Hq); lia).
    rewrite seq_S, (for_each_snoc _ _ _ _ _ Hrun). simpl.
    destruct (scan_body_spec peaks (S t)) as [(Hc & Hok & ->) | (Hno & ->)]; try lia.
    + exists (peaks ++ [S t]). split; [reflexivity|]. split; [|split].
      * intros p Hp. apply elem_of_app in Hp as [Hp|Hp].
        -- destruct (Hin p Hp). split; [lia | assumption].
        -- apply list_elem_of_singleton in Hp as ->. auto.
      * apply StronglySorted_app_2; [|exact Hs | repeat constructor].
        intros x1 x2 Hx1 Hx2. apply list_elem_of_singleton in Hx2 as ->. auto.
      * intros i Hi Hci. destruct (decide (i = S t)) as [->|Hne].
        -- split; [|intros _; apply elem_of_app; right; left].
           intros _ p Hp. apply previous_peak_snoc in Hp; [|lia].
           apply (previous_peak_last peaks (S t) p Hs Hbefore) in Hp as [Hne ->].
           destruct Hok as [->|Hok]; [congruence | exact Hok].
        -- rewrite elem_of_app, list_elem_of_singleton.
           rewrite (Hiff i) by (auto; lia). split.
           ++ intros [H|H]; [|lia]. intros p Hp. apply H.
              apply (previous_peak_snoc peaks i (S t) p); [lia | exact Hp].
           ++ intros H. left. intros p Hp. apply H.
              apply (previous_peak_snoc peaks i (S t) p); [lia | exact Hp].
    + exists peaks. split; [reflexivity|]. split; [|split; [exact Hs|]].
      * intros p Hp. destruct (Hin p Hp). split; [lia | assumption].
      * intros i Hi Hci. destruct (decide (i = S t)) as [->|Hne].
        -- destruct Hno as [Hno | [Hne Hno]]; [contradiction|].
           split.
           ++ intros Hmem. apply Hbefore in Hmem. lia.
           ++ intros H. exfalso. apply Hno. apply H.
              apply (previous_peak_last peaks (S t) _ Hs Hbefore). auto.
        -- apply Hiff; [lia | exact Hci].
Qed.

End Scan.

Lemma diff_positive peaks :
  StronglySorted lt peaks -> Forall (fun d => (0 < d)%Z) (np.diff peaks).
Proof.
  induction 1 as [|a l Hs IH Hall]; [constructor|].
  destruct l as [|b l]; simpl; [constructor|].
  constructor; [|exact IH]. inversion Hall; subst. lia.
Qed.

Lemma diff_cons_length l : forall a, length (np.diff (a :: l)) = length l.
Proof.
  induction l as [|b l IH]; intros a; [reflexivity|].
  change (np.diff (a :: b :: l)) with ((Z.of_nat b - Z.of_nat a)%Z :: np.diff (b :: l)).
  cbn [length]. rewrite IH. reflexivity.
Qed.

Lemma diff_length peaks : length (np.diff peaks) = length peaks - 1.
Proof.
  destruct peaks as [|a l]; [reflexivity|].
  rewrite diff_cons_length. simpl. lia.
Qed.

Lemma sum_from_positive xs : forall acc,
  (0 < acc)%Q -> Forall (Qlt 0) xs -> (0 < fold_left Qplus xs acc)%Q.
Proof.
  induction xs as [|x xs IH]; intros acc Hacc Hall; simpl; [exact Hacc|].
  inversion Hall as [|? ? Hx Hxs]; subst. apply IH; [|exact Hxs].
  rewrite <- (Qplus_0_r 0). apply Qplus_lt_le_compat; [exact Hacc | apply Qlt_le_weak; exact Hx].
Qed.

(** Two or more peaks in increasing order are a positive time apart on
    average. *)
Lemma mean_interval_positive sample_rate peaks :
  (0 < sample_rate)%Q -> StronglySorted lt peaks -> 2 <= length peaks ->
  (0 < mean_interval sample_rate peaks)%Q.
Proof.
  intros Hsr Hs Hlen. unfold mean_interval, np.mean.
  pose proof (diff_positive peaks Hs) as Hpos.
  pose proof (diff_length peaks) as Hdl.
  set (rr := map (fun d => (inject_Z d / sample_rate)%Q) (np.diff peaks)).
  assert (Hrr : Forall (Qlt 0) rr).
  { unfold rr. apply Forall_fmap. eapply Forall_impl; [exact Hpos|].
    intros d Hd. simpl. apply Qlt_shift_div_l; [exact Hsr|].
    rewrite Qmult_0_l. change 0%Q with (inject_Z 0). rewrite <- Zlt_Qlt. exact Hd. }
  assert (Hn : length rr = length peaks - 1) by (unfold rr; rewrite length_map; exact Hdl).
  apply Qlt_shift_div_l; [apply Q_of_nat_pos; lia|]. rewrite Qmult_0_l.
  destruct rr as [|r rr']; [simpl in Hn; lia|].
  inversion Hrr; subst. unfold np.sum. simpl. apply sum_from_positive; [|assumption].
  rewrite Qplus_0_l. assumption.
Qed.

(** C4: on a non-empty conditioned buffer, the detector takes as threshold
    0.5 times the global maximum of the buffer; every accepted index is an
    interior sample that is strictly above the threshold and both its
    neighbours; such a candidate is accepted exactly when it lies more than
    [0.3 * sample_rate] samples past the peak accepted before it (or none
    was); the accepted indices are strictly increasing; and the rate
    [60 / mean interval in seconds] is reported exactly when at least two
    peaks were accepted, the mean interval being positive then. *)
Theorem detect_qrs_spec (sample_rate : Q) (filtered : list Q) :
  (0 < sample_rate)%Q -> filtered <> [] ->
  exists m peaks rate,
    detect_qrs sample_rate filtered = Ok ((0.5 * m)%Q, peaks, rate) /\
    (m ∈ filtered /\ forall y, y ∈ filtered -> (y <= m)%Q) /\
    (forall p, p ∈ peaks -> is_candidate (0.5 * m) filtered p) /\
    (forall i, is_candidate (0.5 * m) filtered i ->
       (i ∈ peaks <->
        forall p, previous_peak peaks i p -> past_refractory sample_rate i p)) /\
    StronglySorted lt peaks /\
    (2 <= length peaks ->
       rate = Some (60 / mean_interval sample_rate peaks)%Q /\
       (0 < mean_interval sample_rate peaks)%Q) /\
    (length peaks < 2 -> rate = None).
Proof.
  intros Hsr Hne.
  destruct (max_spec filtered Hne) as (m & Hmax & Hin & Hge).
  set (n := length filtered).
  destruct (scan_loop sample_rate (0.5 * m)%Q filtered (n - 2))
    as (peaks & Hrun & Hcand & Hsorted & Hiff).
  { reflexivity. }
  exists m, peaks, (detected_rate sample_rate peaks).
  split.
  { unfold detect_qrs. rewrite Hmax. cbv beta iota delta [mbind result_bind].
    fold n. replace (n - 1 - 1) with (n - 2) by lia. rewrite Hrun. reflexivity. }
  split; [auto|]. split; [intros p Hp; apply (Hcand p Hp)|].
  split.
  { intros i Hi. apply Hiff; [|exact Hi]. destruct Hi as (H1 & H2 & _). fold n in H2. lia. }
  split; [exact Hsorted|].
  unfold detected_rate. split; intros Hlen.
  - replace (1 <? length peaks) with true by (symmetry; apply Nat.ltb_lt; lia).
    split; [reflexivity | apply mean_interval_positive; assumption].
  - replace (1 <? length peaks) with false by (symmetry; apply Nat.ltb_ge; lia). reflexivity.
Qed.

Lemma detect_qrs_spec_witness :
  exists m peaks rate,
    detect_qrs 10 [0; 1; 0; 0; 0; 3; 0; 0; 0; 4; 0; 0; 0; 0; 5; 0]%Q
      = Ok ((0.5 * m)%Q, peaks, rate) /\
    (m ∈ [0; 1; 0; 0; 0; 3; 0; 0; 0; 4; 0; 0; 0; 0; 5; 0]%Q /\
     forall y, y ∈ [0; 1; 0; 0; 0; 3; 0; 0; 0; 4; 0; 0; 0; 0; 5; 0]%Q -> (y <= m)%Q) /\
    (forall p, p ∈ peaks ->
       is_candidate (0.5 * m) [0; 1; 0; 0; 0; 3; 0; 0; 0; 4; 0; 0; 0; 0; 5; 0]%Q p) /\
    (forall i, is_candidate (0.5 * m) [0; 1; 0; 0; 0; 3; 0; 0; 0; 4; 0; 0; 0; 0; 5; 0]%Q i ->
       (i ∈ peaks <-> forall p, previous_peak peaks i p -> past_refractory 10 i p)) /\
    StronglySorted lt peaks /\
    (2 <= length peaks ->
       rate = Some (60 / mean_interval 10 peaks)%Q /\ (0 < mean_interval 10 peaks)%Q) /\
    (length peaks < 2 -> rate = None).
Proof.
  apply (detect_qrs_spec 10 [0; 1; 0; 0; 0; 3; 0; 0; 0; 4; 0; 0; 0; 0; 5; 0]%Q);
    [reflexivity | discriminate].
Defined.

(** The detector on that buffer, at 10 samples per second: the sample at
    index 1 is below the threshold 2.5, and those at 5, 9 and 14 are
    accepted, more than 3 samples apart. *)
Example detect_qrs_run :
  detect_qrs 10 [0; 1; 0; 0; 0; 3; 0; 0; 0; 4; 0; 0; 0; 0; 5; 0]%Q
    = Ok (2.5%Q, [5; 9; 14], Some (12000 # 90)%Q) /\
  detect_qrs 10 [0; 3; 0; 4; 0; 5; 0]%Q = Ok (2.5%Q, [1; 5], Some (600 # 4)%Q).
Proof. split; reflexivity. Qed.

(** ** [DSPFilters]: the moving average *)

Lemma last_default {A} (xs : list A) d d' :
  xs <> [] -> List.last xs d = List.last xs d'.
Proof.
  induction xs as [|x xs IH]; [congruence|]. intros _.
  destruct xs as [|y xs]; [reflexivity|].
  change (List.last (y :: xs) d = List.last (y :: xs) d'). apply IH. discriminate.
Qed.

Lemma pad_edge_ok data l r :
  data <> [] ->
  np.pad_edge data l r
    = Ok (replicate l (nth 0 data 0%Q) ++ data ++ replicate r (List.last data 0%Q)).
Proof.
  destruct data as [|x xs]; [congruence|]. intros _. unfold np.pad_edge.
  rewrite (last_default (x :: xs) x 0%Q) by discriminate. reflexivity.
Qed.

Lemma convolve_valid_ok a v :
  v <> [] -> length v <= length a ->
  np.convolve_valid a v
    = Ok (map (fun k => np.inner (take (length v) (drop k a)) (reverse v))
              (seq 0 (length a - length v + 1))).
Proof.
  intros Hv Hlen. unfold np.convolve_valid.
  destruct a as [|a0 a]; [destruct v; [congruence | simpl in Hlen; lia]|].
  destruct v as [|v0 v]; [congruence|].
  replace (length (a0 :: a) <? length (v0 :: v)) with false
    by (symmetry; apply Nat.ltb_ge; exact Hlen).
  reflexivity.
Qed.

Lemma Q_of_nat_S k : (Q_of_nat (S k) == Q_of_nat k + 1)%Q.
Proof.
  unfold Q_of_nat. rewrite Nat2Z.inj_succ, <- Z.add_1_r, inject_Z_plus. reflexivity.
Qed.



(** The buffer extended by [h] copies of its first sample in front and [h]
    copies of its last sample behind. *)
Lemma edge_padded_length data h :
  length (replicate h (nth 0 data 0%Q) ++ data ++ replicate h (List.last data 0%Q))
    = h + length data + h.
Proof. rewrite !length_app, !length_replicate. lia. Qed.

(** What [moving_average] computes on a non-empty buffer, for [W >= 1]:
    the first [len(data)] averages of [W] consecutive samples of the
    padded buffer. *)
Lemma moving_average_run (data : list Q) (window_size : nat) :
  data <> [] -> 1 <= window_size ->
  let h := window_size / 2 in
  let padded := replicate h (nth 0 data 0%Q) ++ data ++ replicate h (List.last data 0%Q) in
  length data <= length padded - window_size + 1 /\
  moving_average data window_size
    = Ok (take (length data)
            (map (fun k => np.inner (take window_size (drop k padded))
                                    (replicate window_size (1 / Q_of_nat window_size)%Q))
                 (seq 0 (length padded - window_size + 1)))).
Proof.
  intros Hne HW h padded.
  assert (Hn : 1 <= length data) by (destruct data; [congruence | simpl; lia]).
  assert (Hh : window_size <= 2 * h + 1).
  { unfold h. pose proof (Nat.div_mod_eq window_size 2) as Hd.
    pose proof (Nat.mod_upper_bound window_size 2). lia. }
  assert (Hplen : length padded = h + length data + h) by apply edge_padded_length.
  split; [lia|].
  set (kernel := map (fun x => (x / Q_of_nat window_size)%Q) (np.ones window_size)).
  assert (Hk : kernel = replicate window_size (1 / Q_of_nat window_size)%Q)
    by exact (fmap_replicate (fun x => x / Q_of_nat window_size)%Q window_size 1%Q).
  unfold moving_average. fold h kernel. rewrite pad_edge_ok by exact Hne. fold padded.
  cbv beta iota delta [mbind result_bind].
  rewrite convolve_valid_ok.
  - rewrite Hk, reverse_replicate, length_replicate. reflexivity.
  - rewrite Hk. destruct window_size; [lia | discriminate].
  - rewrite Hk, length_replicate. lia.
Qed.







(** The calls that are refused: an empty buffer and a zero window length. *)
Example moving_average_refused :
  moving_average [] 3 = Raise ValueError /\
  moving_average [1; 2; 3]%Q 0 = Raise ValueError.
Proof. split; reflexivity. Qed.

(** ** [DSPFilters]: the median filter *)

#[local] Instance Qle_transitive : Transitive Qle := Qle_trans.

#[local] Instance Qle_total : Total Qle.
Proof. intros x y. destruct (Qlt_le_dec y x) as [H|H]; [right; apply Qlt_le_weak|left]; exact H. Qed.

Lemma even_mod2 n : Nat.even n = negb (n mod 2 =? 1).
Proof.
  rewrite (Nat.div_mod_eq n 2) at 1.
  rewrite Nat.add_comm, Nat.even_add_mul_2.
  pose proof (Nat.mod_upper_bound n 2) as Hlt.
  destruct (n mod 2) as [|[|k]]; [reflexivity | reflexivity | lia].
Qed.

Lemma filter_all_length (P : Q -> Prop) `{!forall x, Decision (P x)} (l : list Q) :
  Forall P l -> length (base.filter P l) = length l.
Proof.
  induction 1 as [|x l Hx Hl IH]; [reflexivity|].
  rewrite filter_cons_True by exact Hx. simpl. rewrite IH. reflexivity.
Qed.

(** In a sorted window of [2h + 1] entries, the entry of index [h] has
    [h + 1] entries at most as large and [h + 1] entries at least as large. *)
Lemma sorted_middle (s : list Q) (h : nat) :
  StronglySorted Qle s -> length s = 2 * h + 1 ->
  nth h s 0%Q ∈ s /\
  h + 1 <= length (base.filter (fun x => x <= nth h s 0)%Q s) /\
  h + 1 <= length (base.filter (fun x => nth h s 0 <= x)%Q s).
Proof.
  intros Hs Hlen. set (m := nth h s 0%Q).
  assert (Hm : s !! h = Some m).
  { destruct (nth_lookup_or_length s h 0%Q) as [H|H]; [exact H | lia]. }
  pose proof (take_drop_middle s h m Hm) as Hsplit.
  set (s1 := take h s) in *. set (s2 := drop (S h) s) in *.
  assert (H1 : length s1 = h) by (unfold s1; rewrite length_take; lia).
  assert (H2 : length s2 = h) by (unfold s2; rewrite length_drop; lia).
  rewrite <- Hsplit in Hs |- *.
  assert (Hlow : Forall (fun x => x <= m)%Q s1).
  { apply Forall_forall. intros x Hx.
    apply (StronglySorted_app_1_elem_of Qle s1 (m :: s2) x m Hs Hx). left. }
  assert (Hhigh : Forall (fun x => m <= x)%Q s2).
  { apply Forall_forall. intros x Hx.
    apply StronglySorted_app_1_r, StronglySorted_inv in Hs. destruct Hs as [_ Hall].
    rewrite Forall_forall in Hall. apply Hall. exact Hx. }
  split; [apply elem_of_app; right; left|]. split.
  - rewrite filter_app, length_app, (filter_all_length _ s1 Hlow), H1.
    rewrite filter_cons_True by apply Qle_refl. simpl. lia.
  - rewrite filter_app, length_app.
    rewrite filter_cons_True by apply Qle_refl. simpl.
    rewrite (filter_all_length _ s2 Hhigh), H2. lia.
Qed.

(** The entry of rank [h] of a window of [2h + 1] samples is a median of it. *)
Lemma rank_is_median (w : list Q) (h : nat) :
  length w = 2 * h + 1 -> is_median (signal.rank h w) w.
Proof.
  intros Hlen. unfold signal.rank.
  pose proof (merge_sort_Permutation Qle w) as Hperm.
  set (s := merge_sort Qle w) in *.
  assert (Hs : StronglySorted Qle s) by (apply StronglySorted_merge_sort; tc_solve).
  assert (Hslen : length s = 2 * h + 1) by (rewrite (Permutation_length Hperm); exact Hlen).
  destruct (sorted_middle s h Hs Hslen) as (Hin & Hle & Hge).
  unfold is_median. rewrite <- !Hperm. rewrite Hslen.
  split; [exact Hin|]. lia.
Qed.

(** The windows that [medfilt] ranks are the windows centred on each sample. *)
Lemma zero_padded_window (data : list Q) (window_size i : nat) :
  window_size mod 2 = 1 -> i < length data ->
  take window_size (drop i (signal.zero_padded data (window_size / 2)))
    = centered_window data window_size i.
Proof.
  intros Hodd Hi. set (h := window_size / 2). set (n := length data).
  assert (HW : window_size = 2 * h + 1)
    by (unfold h; pose proof (Nat.div_mod_eq window_size 2); lia).
  apply list_eq. intros j. unfold centered_window. rewrite list_lookup_fmap. fold h.
  destruct (decide (j < window_size)) as [Hj|Hj].
  2:{ rewrite lookup_take_ge by lia. rewrite lookup_seq_ge by lia. reflexivity. }
  rewrite lookup_take_lt by lia. rewrite lookup_drop, lookup_seq_lt by lia. simpl.
  unfold signal.zero_padded, sample_or_zero, np.zeros.
  destruct (decide (i + j < h)) as [Hlo|Hlo].
  - rewrite lookup_app_l by (rewrite length_replicate; lia).
    rewrite lookup_replicate_2 by lia.
    replace (Z.of_nat i - Z.of_nat h + Z.of_nat j <? 0)%Z with true
      by (symmetry; apply Z.ltb_lt; lia).
    reflexivity.
  - rewrite lookup_app_r by (rewrite length_replicate; lia). rewrite length_replicate.
    replace (Z.of_nat i - Z.of_nat h + Z.of_nat j <? 0)%Z with false
      by (symmetry; apply Z.ltb_ge; lia).
    replace (Z.to_nat (Z.of_nat i - Z.of_nat h + Z.of_nat j)) with (i + j - h) by lia.
    destruct (decide (i + j - h < n)) as [Hmid|Hhi].
    + rewrite lookup_app_l by (fold n; lia).
      destruct (nth_lookup_or_length data (i + j - h) 0%Q) as [H|H]; [exact H | fold n in H; lia].
    + rewrite lookup_app_r by (fold n; lia). fold n.
      rewrite lookup_replicate_2 by lia.
      rewrite nth_overflow by (fold n; lia). reflexivity.
Qed.

(** C7: with an even window length the median filter fails with
    [ValueError]; with an odd one it returns, for each sample, a median of
    the window of that length centred on the sample (the buffer counting as
    zero beyond its ends). *)
Theorem median_filter_spec (data : list Q) (window_size : nat) :
  (Nat.even window_size = true -> median_filter data window_size = Raise ValueError) /\
  (Nat.odd window_size = true ->
   exists out,
     median_filter data window_size = Ok out /\
     length out = length data /\
     forall i, i < length data ->
       exists m, out !! i = Some m /\ is_median m (centered_window data window_size i)).
Proof.
  unfold median_filter, signal.medfilt. rewrite <- even_mod2. split.
  - intros ->. reflexivity.
  - intros Hodd.
    assert (Heven : Nat.even window_size = false)
      by (rewrite <- Nat.negb_odd, Hodd; reflexivity).
    rewrite Heven. eexists. split; [reflexivity|].
    split; [rewrite length_map, length_seq; reflexivity|].
    intros i Hi. rewrite even_mod2 in Heven. apply negb_false_iff, Nat.eqb_eq in Heven.
    eexists. split.
    + rewrite list_lookup_fmap, lookup_seq_lt by exact Hi. reflexivity.
    + rewrite zero_padded_window by assumption.
      apply rank_is_median.
      unfold centered_window. rewrite length_map, length_seq.
      change (window_size = 2 * (window_size / 2) + 1).
      pose proof (Nat.div_mod_eq window_size 2). lia.
Qed.

Lemma median_filter_spec_witness :
  median_filter [1; 5; 2; 8; 3]%Q 4 = Raise ValueError /\
  exists out,
    median_filter [1; 5; 2; 8; 3]%Q 3 = Ok out /\
    length out = length [1; 5; 2; 8; 3]%Q /\
    forall i, i < length [1; 5; 2; 8; 3]%Q ->
      exists m, out !! i = Some m /\ is_median m (centered_window [1; 5; 2; 8; 3]%Q 3 i).
Proof.
  split.
  - apply (proj1 (median_filter_spec [1; 5; 2; 8; 3]%Q 4)). reflexivity.
  - apply (proj2 (median_filter_spec [1; 5; 2; 8; 3]%Q 3)). reflexivity.
Defined.

(** The median filter on a buffer with a spike. *)
Example median_filter_run :
  median_filter [1; 5; 2; 8; 3]%Q 3 = Ok [1; 2; 5; 3; 3]%Q.
Proof. reflexivity. Qed.

(** ** [DSPFilters]: output length *)

Lemma filtfilt_length lib b a x y :
  signal.filtfilt lib b a x = Ok y -> length y = length x.
Proof.
  unfold signal.filtfilt. destruct (_ <=? _); [discriminate|].
  intros H. apply bind_ok in H as (zi & _ & H).
  injection H as <-. apply filtfilt_run_length.
Qed.

Lemma medfilt_length data window_size out :
  signal.medfilt data window_size = Ok out -> length out = length data.
Proof.
  unfold signal.medfilt. destruct (negb _); [discriminate|].
  intros H. injection H as <-. rewrite length_map, length_seq. reflexivity.
Qed.

Lemma moving_average_length data window_size out :
  moving_average data window_size = Ok out -> length out = length data.
Proof.
  intros H.
  destruct data as [|x xs].
  { unfold moving_average, np.pad_edge, np.convolve_valid in H.
    destruct ((_ =? 0) && (_ =? 0)); simpl in H; discriminate. }
  destruct window_size as [|w].
  { unfold moving_average in H. simpl in H. discriminate. }
  destruct (moving_average_run (x :: xs) (S w)) as [Hlen Hrun]; [discriminate | lia |].
  rewrite Hrun in H. injection H as <-.
  rewrite length_take, length_map, length_seq. apply Nat.min_l. exact Hlen.
Qed.

(** C5: whenever a filter of the bank accepts its parameters and the
    buffer, the buffer it returns has as many samples as its input. *)
Theorem apply_filter_length (lib : Library) (sample_rate : Q) (spec : FilterSpec)
    (data out : list Q) :
  apply_filter lib sample_rate spec data = Ok out -> length out = length data.
Proof.
  destruct spec; simpl;
    unfold butterworth_lowpass, butterworth_highpass, butterworth_bandpass,
           notch_filter, median_filter, fir_filter; intros H.
  - apply bind_ok in H as (w & _ & H). apply bind_ok in H as ([b a] & _ & H).
    exact (filtfilt_length _ _ _ _ _ H).
  - apply bind_ok in H as (w & _ & H). apply bind_ok in H as ([b a] & _ & H).
    exact (filtfilt_length _ _ _ _ _ H).
  - apply bind_ok in H as (lo & _ & H). apply bind_ok in H as (hi & _ & H).
    apply bind_ok in H as ([b a] & _ & H).
    exact (filtfilt_length _ _ _ _ _ H).
  - apply bind_ok in H as (w & _ & H). apply bind_ok in H as ([b a] & _ & H).
    exact (filtfilt_length _ _ _ _ _ H).
  - exact (moving_average_length _ _ _ H).
  - exact (medfilt_length _ _ _ H).
  - apply bind_ok in H as (w & _ & H). apply bind_ok in H as (taps & _ & H).
    exact (filtfilt_length _ _ _ _ _ H).
Qed.

Lemma apply_filter_length_witness :
  length [1; 2; 5; 3; 3]%Q = length [1; 5; 2; 8; 3]%Q.
Proof.
  apply (apply_filter_length demo_library 500 (Median 3) [1; 5; 2; 8; 3]%Q
           [1; 2; 5; 3; 3]%Q).
  reflexivity.
Defined.

(** Each kind of filter on a buffer of thirty samples at 500 Hz, with the
    stand-in kernels: all are accepted. *)
Example apply_filter_accepts :
  forallb (fun spec => is_ok (apply_filter demo_library 500 spec (np.ones 30)))
    [LowPass 10 4; HighPass 0.5 4; BandPass 0.5 40 4; Notch 50 30;
     MovingAverage 5; Median 5; FIR 5 10 lowpass] = true.
Proof. reflexivity. Qed.

(** ** [DSPFilters]: cutoffs at or above the Nyquist frequency *)

Section Nyquist.

Variable lib : Library.
Variable sample_rate : Q.
Hypothesis sample_rate_positive : (0 < sample_rate)%Q.

Let nyquist := (sample_rate / 2)%Q.

Lemma nyquist_positive : (0 < nyquist)%Q.
Proof.
  unfold nyquist. apply Qlt_shift_div_l; [reflexivity|].
  rewrite Qmult_0_l. exact sample_rate_positive.
Qed.

Lemma normalize_ok f : py_div f nyquist = Ok (f / nyquist)%Q.
Proof.
  apply py_div_ok. intros H. pose proof nyquist_positive as Hp.
  rewrite H in Hp. exact (Qlt_irrefl _ Hp).
Qed.

Lemma normalized_ge_1 f : (nyquist <= f)%Q -> Qltb (f / nyquist) 1 = false.
Proof.
  intros H. apply Qltb_ge. apply Qle_shift_div_l; [apply nyquist_positive|].
  rewrite Qmult_1_l. exact H.
Qed.

Lemma normalized_gt_1 f : (nyquist < f)%Q -> Qltb 1 (f / nyquist) = true.
Proof.
  intros H. apply Qltb_lt. apply Qlt_shift_div_l; [apply nyquist_positive|].
  rewrite Qmult_1_l. exact H.
Qed.

Lemma butter_rejects N Wn bt w :
  w ∈ Wn -> Qltb w 1 = false -> signal.butter lib N Wn bt = Raise ValueError.
Proof.
  intros Hin Hw. unfold signal.butter.
  assert (Hall : forallb (fun w => Qltb 0 w && Qltb w 1) Wn = false).
  { apply not_true_is_false. intros Hall. rewrite forallb_forall in Hall.
    apply list_elem_of_In in Hin. specialize (Hall w Hin).
    rewrite Hw, andb_false_r in Hall. discriminate. }
  rewrite Hall. reflexivity.
Qed.

(** C8 (as amended): at a positive sampling rate, a Butterworth low-pass,
    high-pass or band-pass call with a cutoff at or above the Nyquist
    frequency fails with [ValueError], and so does a notch call with a
    notch frequency strictly above the Nyquist frequency. *)
Theorem cutoff_above_nyquist_rejected (data : list Q) :
  (forall cutoff_freq order, (sample_rate / 2 <= cutoff_freq)%Q ->
     butterworth_lowpass lib sample_rate data cutoff_freq order = Raise ValueError) /\
  (forall cutoff_freq order, (sample_rate / 2 <= cutoff_freq)%Q ->
     butterworth_highpass lib sample_rate data cutoff_freq order = Raise ValueError) /\
  (forall low_freq high_freq order,
     (sample_rate / 2 <= low_freq)%Q \/ (sample_rate / 2 <= high_freq)%Q ->
     butterworth_bandpass lib sample_rate data low_freq high_freq order = Raise ValueError) /\
  (forall notch_freq quality_factor, (sample_rate / 2 < notch_freq)%Q ->
     notch_filter lib sample_rate data notch_freq quality_factor = Raise ValueError).
Proof.
  fold nyquist. repeat split.
  - intros f order Hf. unfold butterworth_lowpass. fold nyquist.
    rewrite normalize_ok. cbv beta iota delta [mbind result_bind].
    rewrite (butter_rejects _ _ _ (f / nyquist)%Q); [reflexivity | left | apply normalized_ge_1; exact Hf].
  - intros f order Hf. unfold butterworth_highpass. fold nyquist.
    rewrite normalize_ok. cbv beta iota delta [mbind result_bind].
    rewrite (butter_rejects _ _ _ (f / nyquist)%Q); [reflexivity | left | apply normalized_ge_1; exact Hf].
  - intros lo hi order Hf. unfold butterworth_bandpass. fold nyquist.
    rewrite !normalize_ok. cbv beta iota delta [mbind result_bind].
    destruct Hf as [Hf|Hf].
    + rewrite (butter_rejects _ _ _ (lo / nyquist)%Q);
        [reflexivity | left | apply normalized_ge_1; exact Hf].
    + rewrite (butter_rejects _ _ _ (hi / nyquist)%Q);
        [reflexivity | right; left | apply normalized_ge_1; exact Hf].
  - intros f q Hf. unfold notch_filter. fold nyquist.
    rewrite normalize_ok. cbv beta iota delta [mbind result_bind].
    unfold signal.iirnotch. rewrite (normalized_gt_1 f Hf). reflexivity.
Qed.

End Nyquist.

Lemma cutoff_above_nyquist_rejected_witness :
  (forall cutoff_freq order, (500 / 2 <= cutoff_freq)%Q ->
     butterworth_lowpass demo_library 500 (np.ones 20) cutoff_freq order = Raise ValueError) /\
  (forall cutoff_freq order, (500 / 2 <= cutoff_freq)%Q ->
     butterworth_highpass demo_library 500 (np.ones 20) cutoff_freq order = Raise ValueError) /\
  (forall low_freq high_freq order,
     (500 / 2 <= low_freq)%Q \/ (500 / 2 <= high_freq)%Q ->
     butterworth_bandpass demo_library 500 (np.ones 20) low_freq high_freq order
       = Raise ValueError) /\
  (forall notch_freq quality_factor, (500 / 2 < notch_freq)%Q ->
     notch_filter demo_library 500 (np.ones 20) notch_freq quality_factor = Raise ValueError).
Proof.
  apply (cutoff_above_nyquist_rejected demo_library 500); reflexivity.
Defined.

(** At exactly the Nyquist frequency the notch design passes the range
    check of [iirnotch], whatever the numerical kernels are: on ten samples
    at 1000 Hz and a notch at 500 Hz a filtered buffer is returned as soon
    as the design has an initial state. *)
Lemma notch_at_nyquist_runs (lib : Library) :
  exists b a,
    signal.iirnotch lib (500 / (1000 / 2)) 30 = Ok (b, a) /\
    (is_ok (lfilter_zi lib b a) = true ->
     notch_filter lib 1000 (np.ones 10) 500 30 = Ok (filtfilt_run lib b a (np.ones 10))).
Proof.
  eexists _, _. split; [reflexivity|]. intros Hzi.
  unfold notch_filter, signal.filtfilt.
  change (py_div 500 (1000 / 2)) with (Ok (500 / (1000 / 2))%Q).
  cbv beta iota delta [mbind result_bind].
  change (signal.iirnotch lib (500 / (1000 / 2)) 30)
    with (Ok ([notch_gain lib ((500 / (1000 / 2)) / 30) * 1;
               notch_gain lib ((500 / (1000 / 2)) / 30)
               * (-2 * cos_pi lib (500 / (1000 / 2)));
               notch_gain lib ((500 / (1000 / 2)) / 30) * 1]%Q,
              [1; -2 * notch_gain lib ((500 / (1000 / 2)) / 30)
                   * cos_pi lib (500 / (1000 / 2));
               2 * notch_gain lib ((500 / (1000 / 2)) / 30) - 1]%Q)) in *.
  cbv beta iota. cbn [length Nat.max Nat.mul Nat.add Nat.leb np.ones replicate].
  destruct (lfilter_zi lib _ _); [reflexivity | discriminate].
Qed.

(** C8 (as stated) fails: a notch call whose notch frequency equals the
    Nyquist frequency returns a filtered buffer. *)
Lemma notch_at_nyquist_accepted :
  ~ (forall (lib : Library) (sample_rate : Q) (data : list Q) (notch_freq quality_factor : Q),
       (0 < sample_rate)%Q -> (sample_rate / 2 <= notch_freq)%Q ->
       is_ok (notch_filter lib sample_rate data notch_freq quality_factor) = false).
Proof.
  intros H.
  specialize (H demo_library 1000%Q (np.ones 10) 500%Q 30%Q).
  assert (Hok : is_ok (notch_filter demo_library 1000 (np.ones 10) 500 30) = true)
    by reflexivity.
  rewrite H in Hok; [discriminate | reflexivity | discriminate].
Qed.

(** ** [spectral_entropy] on an all-zero buffer *)

Module IEEEFacts.

Import IEEE.

Lemma np_sum_zero xs : all_zero xs -> np_sum xs = 0%float.
Proof.
  unfold np_sum. induction 1 as [|x xs Hx _ IH]; [reflexivity|].
  simpl. rewrite Hx. exact IH.
Qed.

(** Zero by zero is not a number, and the comparison [0 < nan] is false. *)
Lemma zero_by_zero :
  is_nan (0 / 0)%float = true /\ (0 <? 0 / 0)%float = false.
Proof. split; reflexivity. Qed.

Lemma normalised_zero psd :
  all_zero psd ->
  Forall (fun p => is_nan p = true) (normalised psd) /\
  positive_bins (normalised psd) = [].
Proof.
  intros H. unfold normalised. rewrite (np_sum_zero psd H).
  unfold positive_bins. induction H as [|x xs Hx _ [IH1 IH2]]; [split; [constructor | reflexivity]|].
  simpl. rewrite Hx. split; [constructor; [reflexivity | exact IH1] | exact IH2].
Qed.

End IEEEFacts.

(** C10 (as amended): on a non-empty buffer, at a positive sampling rate
    [spectral_entropy] returns: it divides the PSD by its sum without a
    guard and gives minus the sum of [p * log2 p] over the normalised bins
    that are strictly positive.  When the buffer is all zero the PSD sums
    to zero and every normalised bin is the not-a-number that zero by zero
    gives; the mask [psd_norm > 0] drops them all, and the result is the
    negated empty sum, minus zero: a finite number.  At a sampling rate of
    zero the call fails with [ValueError], raised by Welch's estimate. *)
Theorem spectral_entropy_spec (lib : IEEE.Spectral) (sample_rate : float)
    (signal_data : list float) :
  signal_data <> [] ->
  ((0 <? sample_rate)%float = true ->
     exists frequencies psd,
       IEEE.compute_psd lib sample_rate signal_data 256 = Ok (frequencies, psd) /\
       IEEE.spectral_entropy lib sample_rate signal_data
         = Ok (- IEEE.np_sum (map (fun p => p * IEEE.log2 lib p)
                                  (IEEE.positive_bins (IEEE.normalised psd))))%float /\
       (IEEE.all_zero signal_data ->
          IEEE.np_sum psd = 0%float /\
          Forall (fun p => is_nan p = true) (IEEE.normalised psd) /\
          IEEE.spectral_entropy lib sample_rate signal_data = Ok (- 0)%float)) /\
  IEEE.spectral_entropy lib 0 signal_data = Raise ValueError.
Proof.
  intros Hne. split; [|reflexivity]. intros Hrate.
  assert (Hpsd : IEEE.compute_psd lib sample_rate signal_data 256
                 = Ok (IEEE.welch_run lib sample_rate 256 signal_data)).
  { unfold IEEE.compute_psd, IEEE.welch. rewrite Hrate.
    destruct (IEEE.welch_run lib sample_rate 256 signal_data). reflexivity. }
  destruct (IEEE.welch_run lib sample_rate 256 signal_data) as [frequencies psd] eqn:Hrun.
  assert (Heq : IEEE.spectral_entropy lib sample_rate signal_data
          = Ok (- IEEE.np_sum (map (fun p => p * IEEE.log2 lib p)
                                   (IEEE.positive_bins (IEEE.normalised psd))))%float).
  { unfold IEEE.spectral_entropy. rewrite Hpsd. reflexivity. }
  exists frequencies, psd. split; [exact Hpsd|]. split; [exact Heq|].
  intros Hzero.
  assert (Hz : IEEE.all_zero psd).
  { pose proof (IEEE.welch_zero lib sample_rate 256 signal_data Hrate Hne Hzero) as H.
    rewrite Hrun in H. exact H. }
  destruct (IEEEFacts.normalised_zero psd Hz) as [Hnan Hnone].
  split; [apply IEEEFacts.np_sum_zero; exact Hz|].
  split; [exact Hnan|].
  rewrite Heq, Hnone. reflexivity.
Qed.

Lemma spectral_entropy_spec_witness :
  [0; 0; 0; 0]%float <> [] /\
  (0 <? 500)%float = true /\
  IEEE.all_zero [0; 0; 0; 0]%float /\
  (exists frequencies psd,
     IEEE.compute_psd demo_spectral 500 [0; 0; 0; 0]%float 256 = Ok (frequencies, psd) /\
     IEEE.np_sum psd = 0%float /\
     Forall (fun p => is_nan p = true) (IEEE.normalised psd) /\
     IEEE.spectral_entropy demo_spectral 500 [0; 0; 0; 0]%float = Ok (- 0)%float) /\
  IEEE.spectral_entropy demo_spectral 0 [0; 0; 0; 0]%float = Raise ValueError.
Proof.
  assert (Hne : [0; 0; 0; 0]%float <> []) by discriminate.
  assert (Hzero : IEEE.all_zero [0; 0; 0; 0]%float) by (repeat constructor).
  destruct (spectral_entropy_spec demo_spectral 500 [0; 0; 0; 0]%float Hne) as [Hpos Hrate].
  destruct (Hpos eq_refl) as (frequencies & psd & Hpsd & _ & Hall).
  destruct (Hall Hzero) as (Hsum & Hnan & Hres).
  split; [exact Hne|]. split; [reflexivity|]. split; [exact Hzero|].
  split; [|exact Hrate].
  exists frequencies, psd. repeat split; assumption.
Defined.

(** C10 (as stated) fails: on an all-zero buffer the call returns, and
    what it returns is a number. *)
Lemma zero_buffer_entropy_is_finite :
  ~ (forall (lib : IEEE.Spectral) (sample_rate : float) (signal_data : list float),
       (0 <? sample_rate)%float = true -> signal_data <> [] ->
       IEEE.all_zero signal_data ->
       forall entropy, IEEE.spectral_entropy lib sample_rate signal_data = Ok entropy ->
                       is_finite entropy = false).
Proof.
  intros H.
  specialize (H demo_spectral 500%float [0; 0; 0; 0]%float eq_refl
                ltac:(discriminate) ltac:(repeat constructor) (- 0)%float eq_refl).
  discriminate H.
Qed.

(** The entropy of a buffer with a non-zero periodogram, for comparison:
    the bins [1/4] and [3/4] are kept. *)
Example spectral_entropy_run :
  IEEE.positive_bins (IEEE.normalised [1; 3]%float) = [0.25; 0.75]%float /\
  (exists entropy,
     IEEE.spectral_entropy demo_spectral 500 [1; 2]%float = Ok entropy /\
     is_nan entropy = false).
Proof. split; [reflexivity | eexists; split; reflexivity]. Qed.

(** * Further properties of the code *)

(** ** [AdaptiveFilter.filter]: shapes, the reference it reads, its errors *)

Lemma for_each_ext {S I} (f g : S -> I -> result S) idx :
  (forall i, i ∈ idx -> forall s, f s i = g s i) ->
  forall s, for_each f idx s = for_each g idx s.
Proof.
  induction idx as [|i idx IH]; intros H s; [reflexivity|]. simpl.
  rewrite (H i) by left. destruct (g s i) as [s'|e]; simpl; [|reflexivity].
  apply IH. intros j Hj. apply H. right. exact Hj.
Qed.

Lemma for_each_app {S I} (body : S -> I -> result S) idx1 idx2 s :
  for_each body (idx1 ++ idx2) s = for_each body idx1 s ≫= for_each body idx2.
Proof.
  revert s. induction idx1 as [|i idx1 IH]; intros s; simpl; [reflexivity|].
  destruct (body s i) as [s'|e]; simpl; [apply IH | reflexivity].
Qed.

(** A loop whose passes keep a property of the state keeps it. *)
Lemma for_each_invariant {S I} (body : S -> I -> result S) (P : S -> Prop) idx :
  (forall s i s', P s -> body s i = Ok s' -> P s') ->
  forall s s', P s -> for_each body idx s = Ok s' -> P s'.
Proof.
  intros Hstep. induction idx as [|i idx IH]; intros s s' Hs H; simpl in H.
  - injection H as <-. exact Hs.
  - destruct (body s i) as [s1|e] eqn:E; simpl in H; [|discriminate].
    apply (IH s1 s'); [eapply Hstep; eauto | exact H].
Qed.

Lemma filter_body_shape L mu primary ref w out i w' out' :
  filter_body L mu primary ref (w, out) i = Ok (w', out') ->
  length w' = length w /\ length out' = length out.
Proof.
  unfold filter_body, np.dot.
  destruct (decide (length w = length (reference_window ref L i))) as [Hlen|]; simpl;
    [|discriminate].
  destruct (np.getitem primary i); simpl; [|discriminate].
  intros H. injection H as <- <-. unfold np.add, np.scale.
  rewrite length_zip_with, length_map, length_insert, <- Hlen. split; [apply Nat.min_id | reflexivity].
Qed.

(** X1: a call that returns gives as many output samples as the primary
    signal has, and leaves the tap count, the step size and the number of
    weights of the filter object as they were. *)
Theorem filter_keeps_shape (af af' : AdaptiveFilter) (primary_signal reference_noise out : list Q) :
  filter af primary_signal reference_noise = Ok (out, af') ->
  length out = length primary_signal /\
  filter_length af' = filter_length af /\
  step_size af' = step_size af /\
  length (weights af') = length (weights af).
Proof.
  unfold filter. intros H. apply bind_ok in H as ([w out'] & Hloop & H).
  injection H as <- <-.
  pose proof (for_each_invariant
    (filter_body (filter_length af) (step_size af) primary_signal reference_noise)
    (fun st => length (fst st) = length (weights af) /\
               length (snd st) = length primary_signal)
    (seq (filter_length af) (length primary_signal - filter_length af))) as Hinv.
  destruct (Hinv) with (s := (weights af, np.zeros (length primary_signal))) (s' := (w, out'))
    as [Hw Hout].
  - intros [w1 o1] i [w2 o2] [H1 H2] Hstep. simpl in *.
    apply filter_body_shape in Hstep as [-> ->]. auto.
  - simpl. split; [reflexivity | apply length_replicate].
  - exact Hloop.
  - simpl in *. auto.
Qed.

Lemma filter_keeps_shape_witness :
  length [0; 1; -3]%Q = length [1; 1; 1]%Q /\
  filter_length (set_weights demo_filter [(-10)%Q]) = filter_length demo_filter /\
  step_size (set_weights demo_filter [(-10)%Q]) = step_size demo_filter /\
  length (weights (set_weights demo_filter [(-10)%Q])) = length (weights demo_filter).
Proof.
  apply (filter_keeps_shape demo_filter (set_weights demo_filter [(-10)%Q])
           [1; 1; 1]%Q [1; 2; 3]%Q [0; 1; -3]%Q).
  reflexivity.
Defined.

Lemma reference_window_take ref L i m :
  L <= i <= m -> reference_window (take m ref) L i = reference_window ref L i.
Proof.
  intros H. unfold reference_window, np.slice. f_equal.
  rewrite skipn_firstn_comm, take_take. f_equal. lia.
Qed.

(** X2: the call never reads the reference at index [N - 1] or beyond: the
    window at [i] stops before [i], and [i] stops before [N]. *)
Theorem filter_ignores_last_reference (af : AdaptiveFilter)
    (primary_signal reference_noise : list Q) :
  filter af primary_signal reference_noise
    = filter af primary_signal (take (length primary_signal - 1) reference_noise).
Proof.
  unfold filter. f_equal. apply for_each_ext. intros i Hi [w out].
  apply elem_of_seq in Hi. unfold filter_body.
  rewrite reference_window_take by lia. reflexivity.
Qed.

Lemma full_window_length ref L i :
  L <= i <= length ref -> length (reference_window ref L i) = L.
Proof.
  intros H. unfold reference_window, np.slice.
  rewrite length_reverse, length_take, length_drop. lia.
Qed.

(** The passes up to index [L + k], while the reference reaches that far. *)
Lemma filter_prefix_runs (L : nat) (mu : Q) (w0 primary ref out0 : list Q) (k : nat) :
  length w0 = L -> L + k <= length primary -> (k = 0 \/ L + k <= length ref + 1) ->
  exists w out,
    for_each (filter_body L mu primary ref) (seq L k) (w0, out0) = Ok (w, out) /\
    length w = L.
Proof.
  intros Hw. induction k as [|k IH]; intros Hp Hr.
  - exists w0, out0. split; [reflexivity | exact Hw].
  - destruct Hr as [Hr|Hr]; [discriminate|].
    destruct IH as (w & out & Hrun & Hlen); [lia | lia |].
    rewrite seq_S, (for_each_snoc _ _ _ _ _ Hrun).
    unfold filter_body, np.dot.
    rewrite Hlen, (full_window_length ref L (L + k)) by lia.
    destruct (decide (L = L)) as [_|]; [|congruence]. simpl.
    rewrite getitem_nth by lia. simpl.
    eexists _, _. split; [reflexivity|].
    unfold np.add, np.scale.
    rewrite length_zip_with, length_map, Hlen, (full_window_length ref L (L + k)) by lia.
    apply Nat.min_id.
Qed.

(** X3: with at least one tap and more primary samples than taps, a
    reference that is two or more samples shorter than the primary signal
    makes the call fail with [ValueError] (the inner product meets a short
    window). *)
Theorem filter_short_reference (af : AdaptiveFilter) (primary_signal reference_noise : list Q) :
  well_formed af ->
  1 <= filter_length af ->
  filter_length af < length primary_signal ->
  length reference_noise + 2 <= length primary_signal ->
  filter af primary_signal reference_noise = Raise ValueError.
Proof.
  intros Hwf HL HN Hshort. unfold filter.
  unfold well_formed in Hwf.
  remember (filter_length af) as L eqn:EL.
  remember (length primary_signal) as N eqn:EN.
  remember (length reference_noise) as R eqn:ER.
  remember (Nat.max L (R + 1) - L) as k eqn:Ek.
  assert (Hk : L + k = Nat.max L (R + 1)) by lia.
  replace (N - L) with (k + (1 + (N - L - k - 1))) by lia.
  rewrite seq_app, for_each_app.
  destruct (filter_prefix_runs L (step_size af) (weights af) primary_signal reference_noise
              (np.zeros N) k Hwf) as (w & out & -> & Hw); [lia | lia |].
  simpl. unfold filter_body at 1, np.dot.
  assert (Hwin : length (reference_window reference_noise L (L + k)) <> L).
  { unfold reference_window, np.slice.
    rewrite length_reverse, length_take, length_drop. lia. }
  destruct (decide (length w = length (reference_window reference_noise L (L + k))));
    [congruence | reflexivity].
Qed.

Lemma filter_short_reference_witness :
  filter demo_filter [1; 1; 1]%Q [1]%Q = Raise ValueError.
Proof.
  apply (filter_short_reference demo_filter [1; 1; 1]%Q [1]%Q);
    [reflexivity | simpl; lia | simpl; lia | simpl; lia].
Defined.

(** ** [DSPFilters]: parameters that are refused *)

Lemma half_zero (sample_rate : Q) : (sample_rate == 0)%Q -> (sample_rate / 2 == 0)%Q.
Proof. intros ->. reflexivity. Qed.

(** X4: at a zero sampling rate every filter that normalises a frequency
    by the Nyquist frequency fails with [ZeroDivisionError], whatever the
    buffer and the other parameters. *)
Theorem zero_sample_rate_divides_by_zero (lib : Library) (sample_rate : Q) (data : list Q) :
  (sample_rate == 0)%Q ->
  (forall f n, butterworth_lowpass lib sample_rate data f n = Raise ZeroDivisionError) /\
  (forall f n, butterworth_highpass lib sample_rate data f n = Raise ZeroDivisionError) /\
  (forall f1 f2 n,
     butterworth_bandpass lib sample_rate data f1 f2 n = Raise ZeroDivisionError) /\
  (forall f q, notch_filter lib sample_rate data f q = Raise ZeroDivisionError) /\
  (forall n f t, fir_filter lib sample_rate data n f t = Raise ZeroDivisionError).
Proof.
  intros Hz. apply half_zero in Hz.
  unfold butterworth_lowpass, butterworth_highpass, butterworth_bandpass,
         notch_filter, fir_filter.
  repeat split; intros; rewrite !(py_div_zero _ _ Hz); reflexivity.
Qed.

Lemma zero_sample_rate_divides_by_zero_witness :
  (forall f n, butterworth_lowpass demo_library 0 (np.ones 20) f n = Raise ZeroDivisionError) /\
  (forall f n, butterworth_highpass demo_library 0 (np.ones 20) f n = Raise ZeroDivisionError) /\
  (forall f1 f2 n,
     butterworth_bandpass demo_library 0 (np.ones 20) f1 f2 n = Raise ZeroDivisionError) /\
  (forall f q, notch_filter demo_library 0 (np.ones 20) f q = Raise ZeroDivisionError) /\
  (forall n f t, fir_filter demo_library 0 (np.ones 20) n f t = Raise ZeroDivisionError).
Proof.
  apply (zero_sample_rate_divides_by_zero demo_library 0 (np.ones 20)). reflexivity.
Defined.

Lemma butter_rejects_nonpositive lib N Wn bt w :
  w ∈ Wn -> Qltb 0 w = false -> signal.butter lib N Wn bt = Raise ValueError.
Proof.
  intros Hin Hw. unfold signal.butter.
  assert (Hall : forallb (fun w => Qltb 0 w && Qltb w 1) Wn = false).
  { apply not_true_is_false. intros Hall. rewrite forallb_forall in Hall.
    apply list_elem_of_In in Hin. specialize (Hall w Hin).
    rewrite Hw in Hall. discriminate. }
  rewrite Hall. reflexivity.
Qed.

Lemma normalized_nonpositive (sample_rate f : Q) :
  (0 < sample_rate)%Q -> (f <= 0)%Q -> Qltb 0 (f / (sample_rate / 2)) = false.
Proof.
  intros Hsr Hf. apply Qltb_ge. apply Qle_shift_div_r.
  - apply Qlt_shift_div_l; [reflexivity | rewrite Qmult_0_l; exact Hsr].
  - rewrite Qmult_0_l. exact Hf.
Qed.

Lemma normalized_negative (sample_rate f : Q) :
  (0 < sample_rate)%Q -> (f < 0)%Q -> Qltb (f / (sample_rate / 2)) 0 = true.
Proof.
  intros Hsr Hf. apply Qltb_lt. apply Qlt_shift_div_r.
  - apply Qlt_shift_div_l; [reflexivity | rewrite Qmult_0_l; exact Hsr].
  - rewrite Qmult_0_l. exact Hf.
Qed.

Lemma half_nonzero (sample_rate : Q) : (0 < sample_rate)%Q -> ~ (sample_rate / 2 == 0)%Q.
Proof.
  intros Hsr H.
  assert (Hp : (0 < sample_rate / 2)%Q)
    by (apply Qlt_shift_div_l; [reflexivity | rewrite Qmult_0_l; exact Hsr]).
  rewrite H in Hp. exact (Qlt_irrefl _ Hp).
Qed.

(** X5: at a positive sampling rate, a Butterworth low-pass or high-pass
    call with a cutoff that is zero or negative, a band-pass call one of
    whose cutoffs is, and a notch call with a negative notch frequency fail
    with [ValueError]. *)
Theorem nonpositive_cutoff_rejected (lib : Library) (sample_rate : Q) (data : list Q) :
  (0 < sample_rate)%Q ->
  (forall f n, (f <= 0)%Q ->
     butterworth_lowpass lib sample_rate data f n = Raise ValueError) /\
  (forall f n, (f <= 0)%Q ->
     butterworth_highpass lib sample_rate data f n = Raise ValueError) /\
  (forall f1 f2 n, (f1 <= 0)%Q \/ (f2 <= 0)%Q ->
     butterworth_bandpass lib sample_rate data f1 f2 n = Raise ValueError) /\
  (forall f q, (f < 0)%Q ->
     notch_filter lib sample_rate data f q = Raise ValueError).
Proof.
  intros Hsr. pose proof (half_nonzero sample_rate Hsr) as Hnz.
  unfold butterworth_lowpass, butterworth_highpass, butterworth_bandpass, notch_filter.
  repeat split.
  - intros f n Hf. rewrite (py_div_ok _ _ Hnz). cbv beta iota delta [mbind result_bind].
    rewrite (butter_rejects_nonpositive _ _ _ _ (f / (sample_rate / 2))%Q);
      [reflexivity | left | apply normalized_nonpositive; assumption].
  - intros f n Hf. rewrite (py_div_ok _ _ Hnz). cbv beta iota delta [mbind result_bind].
    rewrite (butter_rejects_nonpositive _ _ _ _ (f / (sample_rate / 2))%Q);
      [reflexivity | left | apply normalized_nonpositive; assumption].
  - intros f1 f2 n Hf. rewrite !(py_div_ok _ _ Hnz). cbv beta iota delta [mbind result_bind].
    destruct Hf as [Hf|Hf].
    + rewrite (butter_rejects_nonpositive _ _ _ _ (f1 / (sample_rate / 2))%Q);
        [reflexivity | left | apply normalized_nonpositive; assumption].
    + rewrite (butter_rejects_nonpositive _ _ _ _ (f2 / (sample_rate / 2))%Q);
        [reflexivity | right; left | apply normalized_nonpositive; assumption].
  - intros f q Hf. rewrite (py_div_ok _ _ Hnz). cbv beta iota delta [mbind result_bind].
    unfold signal.iirnotch. rewrite (normalized_negative _ _ Hsr Hf), orb_true_r. reflexivity.
Qed.

Lemma nonpositive_cutoff_rejected_witness :
  (forall f n, (f <= 0)%Q ->
     butterworth_lowpass demo_library 500 (np.ones 20) f n = Raise ValueError) /\
  (forall f n, (f <= 0)%Q ->
     butterworth_highpass demo_library 500 (np.ones 20) f n = Raise ValueError) /\
  (forall f1 f2 n, (f1 <= 0)%Q \/ (f2 <= 0)%Q ->
     butterworth_bandpass demo_library 500 (np.ones 20) f1 f2 n = Raise ValueError) /\
  (forall f q, (f < 0)%Q ->
     notch_filter demo_library 500 (np.ones 20) f q = Raise ValueError).
Proof.
  apply (nonpositive_cutoff_rejected demo_library 500 (np.ones 20)). reflexivity.
Defined.

Lemma iirnotch_lengths lib w0 q b a :
  signal.iirnotch lib w0 q = Ok (b, a) -> length b = 3 /\ length a = 3.
Proof.
  unfold signal.iirnotch. destruct (_ || _); [discriminate|].
  destruct (py_div w0 q); simpl; [|discriminate].
  intros H. injection H as <- <-. split; reflexivity.
Qed.

(** X6: the notch filter never returns on a buffer of nine samples or
    fewer: its three-coefficient design makes the forward-backward pass ask
    for more than nine. *)
Theorem notch_filter_needs_ten_samples (lib : Library) (sample_rate : Q) (data : list Q)
    (notch_freq quality_factor : Q) :
  length data <= 9 ->
  is_ok (notch_filter lib sample_rate data notch_freq quality_factor) = false.
Proof.
  intros Hlen. unfold notch_filter.
  destruct (py_div notch_freq (sample_rate / 2)) as [w|]; simpl; [|reflexivity].
  destruct (signal.iirnotch lib w quality_factor) as [[b a]|] eqn:E; simpl; [|reflexivity].
  apply iirnotch_lengths in E as [Hb Ha].
  unfold signal.filtfilt. rewrite Hb, Ha.
  replace (length data <=? 3 * Nat.max 3 3) with true
    by (symmetry; apply Nat.leb_le; simpl; lia).
  reflexivity.
Qed.

Lemma notch_filter_needs_ten_samples_witness :
  is_ok (notch_filter demo_library 500 (np.ones 9) 50 30) = false.
Proof.
  apply (notch_filter_needs_ten_samples demo_library 500 (np.ones 9) 50 30).
  simpl. lia.
Defined.

(** ** [DSPFilters]: the moving average, sample by sample *)

(** X7: the moving average refuses an empty buffer, whatever the window
    length, and a zero window length, whatever the buffer. *)
Theorem moving_average_refuses (data : list Q) (window_size : nat) :
  moving_average [] window_size = Raise ValueError /\
  moving_average data 0 = Raise ValueError.
Proof.
  split.
  - unfold moving_average, np.pad_edge, np.convolve_valid.
    destruct ((_ =? 0) && (_ =? 0)); reflexivity.
  - unfold moving_average. destruct data as [|x xs]; reflexivity.
Qed.





(** X9: with window length 1 the moving average returns the buffer, sample
    for sample. *)
Theorem moving_average_unit_window (data : list Q) :
  data <> [] ->
  exists out, moving_average data 1 = Ok out /\ Forall2 Qeq out data.
Proof.
  intros Hne.
  destruct (moving_average_run data 1 Hne (le_n 1)) as [Hlen Hrun].
  eexists. split; [exact Hrun|].
  apply Forall2_same_length_lookup. split.
  { rewrite length_take, length_map, length_seq. apply Nat.min_l. exact Hlen. }
  intros k y x Hy Hx.
  assert (Hk : k < length data) by (eapply lookup_lt_Some; eauto).
  rewrite lookup_take_lt in Hy by exact Hk.
  rewrite list_lookup_fmap, lookup_seq_lt in Hy by lia.
  injection Hy as <-. cbv beta. change (0 + k) with k.
  rewrite app_nil_r, (drop_S _ _ _ Hx).
  unfold np.inner, np.sum, Q_of_nat. simpl. field.
Qed.

Lemma moving_average_unit_window_witness :
  exists out, moving_average [3; 1; 4]%Q 1 = Ok out /\ Forall2 Qeq out [3; 1; 4]%Q.
Proof.
  apply (moving_average_unit_window [3; 1; 4]%Q). discriminate.
Defined.

(** ** [DSPFilters]: the median filter *)

(** X10: with window length 1 the median filter returns a non-empty buffer
    itself. *)
Theorem median_filter_unit_window (data : list Q) :
  data <> [] -> median_filter data 1 = Ok data.
Proof.
  intros _. unfold median_filter, signal.medfilt. simpl. f_equal.
  unfold signal.zero_padded. simpl. rewrite app_nil_r.
  apply list_eq. intros i. rewrite list_lookup_fmap.
  destruct (data !! i) as [x|] eqn:Hx.
  - rewrite lookup_seq_lt by (eapply lookup_lt_Some; eauto). simpl.
    rewrite (drop_S _ _ _ Hx). reflexivity.
  - rewrite lookup_seq_ge by (apply lookup_ge_None; exact Hx). reflexivity.
Qed.

Lemma median_filter_unit_window_witness :
  [3; 1; 2]%Q <> [] /\ median_filter [3; 1; 2]%Q 1 = Ok [3; 1; 2]%Q.
Proof.
  split; [discriminate | apply (median_filter_unit_window [3; 1; 2]%Q); discriminate].
Defined.

Lemma sample_or_zero_cases (data : list Q) (z : Z) :
  sample_or_zero data z ∈ data \/ sample_or_zero data z = 0%Q.
Proof.
  unfold sample_or_zero. destruct (z <? 0)%Z; [right; reflexivity|].
  destruct (nth_in_or_default (Z.to_nat z) data 0%Q) as [H|H].
  - left. apply list_elem_of_In. exact H.
  - right. exact H.
Qed.

(** X11: with an odd window length, every sample the median filter
    returns is a sample of the buffer or zero: the filter makes no new
    values. *)
Theorem median_filter_values (data out : list Q) (window_size : nat) :
  median_filter data window_size = Ok out ->
  forall y, y ∈ out -> y ∈ data \/ y = 0%Q.
Proof.
  unfold median_filter, signal.medfilt.
  destruct (window_size mod 2 =? 1) eqn:Hodd; cbn [negb]; [|discriminate].
  apply Nat.eqb_eq in Hodd. intros H. injection H as <-.
  intros y Hy. apply list_elem_of_fmap in Hy as (i & -> & Hi).
  apply elem_of_seq in Hi.
  rewrite zero_padded_window by (assumption || lia).
  assert (Hlen : length (centered_window data window_size i) = 2 * (window_size / 2) + 1).
  { unfold centered_window. rewrite length_map, length_seq.
    pose proof (Nat.div_mod_eq window_size 2). lia. }
  pose proof (rank_is_median _ _ Hlen) as [Hin _].
  change (fst (Nat.divmod window_size 1 0 1)) with (window_size / 2).
  remember (signal.rank (window_size / 2) (centered_window data window_size i)) as m eqn:Em.
  clear Em. unfold centered_window in Hin.
  apply list_elem_of_fmap in Hin as (j & -> & _).
  apply sample_or_zero_cases.
Qed.

Lemma median_filter_values_witness :
  median_filter [1; 5; 2; 8; 3]%Q 3 = Ok [1; 2; 5; 3; 3]%Q /\
  Forall (fun y => y ∈ [1; 5; 2; 8; 3]%Q \/ y = 0%Q) [1; 2; 5; 3; 3]%Q.
Proof.
  split; [reflexivity|]. apply Forall_forall.
  apply (median_filter_values [1; 5; 2; 8; 3]%Q [1; 2; 5; 3; 3]%Q 3). reflexivity.
Defined.

(** ** The cascades of [main.py] *)

Lemma lowpass_length lib sr data f n out :
  butterworth_lowpass lib sr data f n = Ok out -> length out = length data.
Proof.
  unfold butterworth_lowpass. intros H.
  apply bind_ok in H as (w & _ & H). apply bind_ok in H as ([b a] & _ & H).
  exact (filtfilt_length _ _ _ _ _ H).
Qed.

Lemma highpass_length lib sr data f n out :
  butterworth_highpass lib sr data f n = Ok out -> length out = length data.
Proof.
  unfold butterworth_highpass. intros H.
  apply bind_ok in H as (w & _ & H). apply bind_ok in H as ([b a] & _ & H).
  exact (filtfilt_length _ _ _ _ _ H).
Qed.

Lemma bandpass_length lib sr data f1 f2 n out :
  butterworth_bandpass lib sr data f1 f2 n = Ok out -> length out = length data.
Proof.
  unfold butterworth_bandpass. intros H.
  apply bind_ok in H as (lo & _ & H). apply bind_ok in H as (hi & _ & H).
  apply bind_ok in H as ([b a] & _ & H).
  exact (filtfilt_length _ _ _ _ _ H).
Qed.

Lemma notch_length lib sr data f q out :
  notch_filter lib sr data f q = Ok out -> length out = length data /\ 9 < length data.
Proof.
  unfold notch_filter. intros H.
  apply bind_ok in H as (w & _ & H). apply bind_ok in H as ([b a] & Hd & H).
  split; [exact (filtfilt_length _ _ _ _ _ H)|].
  apply iirnotch_lengths in Hd as [Hb Ha].
  unfold signal.filtfilt in H. rewrite Hb, Ha in H.
  destruct (length data <=? 3 * Nat.max 3 3) eqn:E; [discriminate|].
  apply Nat.leb_gt in E. simpl in E. lia.
Qed.

(** X12: when the PPG cascade (high-pass, low-pass, notch) returns, the
    conditioned buffer has as many samples as the raw one, and the raw
    buffer had more than nine. *)
Theorem ppg_filter_pipeline_length (lib : Library) (sample_rate : Q)
    (noisy_signal filtered : list Q) :
  ppg_filter_pipeline lib sample_rate noisy_signal = Ok filtered ->
  length filtered = length noisy_signal /\ 9 < length noisy_signal.
Proof.
  unfold ppg_filter_pipeline. intros H.
  apply bind_ok in H as (f1 & H1 & H). apply bind_ok in H as (f2 & H2 & H3).
  apply highpass_length in H1. apply lowpass_length in H2.
  apply notch_length in H3 as [H3 H9]. split; lia.
Qed.

Lemma ppg_filter_pipeline_length_witness :
  length (np.ones 20) = length (np.ones 20) /\ 9 < length (np.ones 20).
Proof.
  apply (ppg_filter_pipeline_length demo_library 500 (np.ones 20) (np.ones 20)).
  reflexivity.
Defined.

(** X13: when the ECG cascade and the detector return, every reported
    peak is the index of an interior sample of the raw buffer, and the
    peaks are in strictly increasing order. *)
Theorem ecg_detect_peaks_in_range (lib : Library) (sample_rate : Q) (noisy_ecg : list Q)
    (threshold : Q) (peaks : list nat) (rate : option Q) :
  ecg_detect lib sample_rate noisy_ecg = Ok (threshold, peaks, rate) ->
  StronglySorted lt peaks /\
  forall p, p ∈ peaks -> 1 <= p /\ p + 1 < length noisy_ecg.
Proof.
  unfold ecg_detect, ecg_filter_pipeline. intros H.
  apply bind_ok in H as (filtered & Hf & H).
  apply bind_ok in Hf as (f1 & H1 & H2).
  apply bandpass_length in H1. apply notch_length in H2 as [H2 _].
  unfold detect_qrs in H. apply bind_ok in H as (m & _ & H).
  apply bind_ok in H as (peaks' & Hscan & H). injection H as <- <- <-.
  destruct (scan_loop sample_rate (0.5 * m)%Q filtered (length filtered - 1 - 1))
    as (peaks'' & Hrun & Hcand & Hsorted & _); [lia|].
  rewrite Hrun in Hscan. injection Hscan as ->.
  split; [exact Hsorted|].
  intros p Hp. destruct (Hcand p Hp) as (_ & Hp1 & Hp2 & _). lia.
Qed.

Lemma ecg_detect_peaks_in_range_witness :
  let noisy_ecg :=
    (replicate 5 0 ++ [4] ++ replicate 14 0 ++ [3] ++ replicate 24 0 ++ [5]
     ++ replicate 14 0)%Q in
  (exists threshold rate,
     ecg_detect demo_library 120 noisy_ecg = Ok (threshold, [5; 45], Some rate)) /\
  StronglySorted lt [5; 45] /\
  forall p, p ∈ [5; 45] -> 1 <= p /\ p + 1 < length noisy_ecg.
Proof.
  intros noisy_ecg.
  assert (Hrun : ecg_detect demo_library 120 noisy_ecg
                 = Ok ((0.5 * 5)%Q, [5; 45],
                       detected_rate 120 [5; 45])) by (vm_compute; reflexivity).
  split; [eexists _, _; exact Hrun|].
  exact (ecg_detect_peaks_in_range demo_library 120 noisy_ecg _ _ _ Hrun).
Defined.

(** ** [FFTAnalyzer]: buffers and rates that are refused *)

Lemma compute_fft_empty (lib : Library) (sample_rate : Q) :
  compute_fft lib sample_rate [] = Raise ValueError.
Proof.
  unfold compute_fft, np.multiply. simpl.
  pose proof (hanning_length lib 0) as H0.
  destruct (hanning lib 0) as [|h hs]; [reflexivity | discriminate].
Qed.

Lemma compute_fft_zero_rate (lib : Library) (sample_rate : Q) (signal_data : list Q) :
  signal_data <> [] -> (sample_rate == 0)%Q ->
  compute_fft lib sample_rate signal_data = Raise ZeroDivisionError.
Proof.
  intros Hne Hz. unfold compute_fft, np.multiply.
  rewrite hanning_length.
  destruct (decide (length signal_data = length signal_data)) as [_|]; [|congruence].
  cbv beta iota delta [mbind result_bind].
  assert (Hw : length (zip_with Qmult signal_data (hanning lib (length signal_data)))
               = length signal_data)
    by (rewrite length_zip_with, hanning_length; apply Nat.min_id).
  unfold fft_polar.
  destruct (zip_with Qmult signal_data (hanning lib (length signal_data))) as [|w ws].
  - destruct signal_data; [congruence | discriminate].
  - rewrite (py_div_zero 1 sample_rate Hz). reflexivity.
Qed.

(** X14: on an empty buffer the spectrum, the dominant-frequency search,
    the heart-rate and the respiration-rate extraction all fail with
    [ValueError], whatever the sampling rate and the band. *)
Theorem analyzer_refuses_empty_buffer (lib : Library) (sample_rate : Q) (freq_range : Q * Q) :
  compute_fft lib sample_rate [] = Raise ValueError /\
  find_dominant_frequency lib sample_rate [] freq_range = Raise ValueError /\
  extract_heart_rate lib sample_rate [] = Raise ValueError /\
  extract_respiration_rate lib sample_rate [] = Raise ValueError.
Proof.
  assert (Hfdf : forall r, find_dominant_frequency lib sample_rate [] r = Raise ValueError).
  { intros r. unfold find_dominant_frequency. rewrite compute_fft_empty. reflexivity. }
  split; [apply compute_fft_empty|]. split; [apply Hfdf|].
  unfold extract_heart_rate, extract_respiration_rate. rewrite !Hfdf. split; reflexivity.
Qed.

(** X15: on a non-empty buffer at a zero sampling rate the same four
    operations fail with [ZeroDivisionError]. *)
Theorem analyzer_zero_rate (lib : Library) (sample_rate : Q) (signal_data : list Q)
    (freq_range : Q * Q) :
  signal_data <> [] -> (sample_rate == 0)%Q ->
  compute_fft lib sample_rate signal_data = Raise ZeroDivisionError /\
  find_dominant_frequency lib sample_rate signal_data freq_range = Raise ZeroDivisionError /\
  extract_heart_rate lib sample_rate signal_data = Raise ZeroDivisionError /\
  extract_respiration_rate lib sample_rate signal_data = Raise ZeroDivisionError.
Proof.
  intros Hne Hz.
  pose proof (compute_fft_zero_rate lib sample_rate signal_data Hne Hz) as Hfft.
  assert (Hfdf : forall r,
            find_dominant_frequency lib sample_rate signal_data r = Raise ZeroDivisionError).
  { intros r. unfold find_dominant_frequency. rewrite Hfft. reflexivity. }
  split; [exact Hfft|]. split; [apply Hfdf|].
  unfold extract_heart_rate, extract_respiration_rate. rewrite !Hfdf. split; reflexivity.
Qed.

Lemma analyzer_zero_rate_witness :
  compute_fft demo_library 0 [1; 5; 2; 3]%Q = Raise ZeroDivisionError /\
  find_dominant_frequency demo_library 0 [1; 5; 2; 3]%Q (0.5, 4)%Q = Raise ZeroDivisionError /\
  extract_heart_rate demo_library 0 [1; 5; 2; 3]%Q = Raise ZeroDivisionError /\
  extract_respiration_rate demo_library 0 [1; 5; 2; 3]%Q = Raise ZeroDivisionError.
Proof.
  apply (analyzer_zero_rate demo_library 0 [1; 5; 2; 3]%Q (0.5, 4)%Q);
    [discriminate | reflexivity].
Defined.

(** ** [FFTAnalyzer.compute_fft]: the bins that are kept *)



Section Bins.

Variable sample_rate : Q.
Hypothesis sample_rate_positive : (0 < sample_rate)%Q.

Variable n : nat.
Hypothesis n_positive : 1 <= n.

Let val : Q := (1 / (Q_of_nat n * (1 / sample_rate)))%Q.
Let N : nat := (n - 1) / 2 + 1.






End Bins.




(** ** [FFTAnalyzer]: what the search and the rates can return *)

(** What [find_dominant_frequency] returns is [(0, 0)], or a frequency of
    the band with a magnitude that is not negative. *)
Lemma dominant_frequency_range (lib : Library) (sample_rate : Q) (signal_data : list Q)
    (lo hi f m : Q) :
  find_dominant_frequency lib sample_rate signal_data (lo, hi) = Ok (f, m) ->
  (f = 0%Q /\ m = 0%Q) \/ (in_band lo hi f /\ (0 <= m)%Q).
Proof.
  intros Hfdf.
  assert (Hfft : exists freqs mags phase,
            compute_fft lib sample_rate signal_data = Ok (freqs, mags, phase)).
  { unfold find_dominant_frequency in Hfdf.
    apply bind_ok in Hfdf as ([[freqs mags] phase] & H & _). eauto. }
  destruct Hfft as (freqs & mags & phase & Hfft).
  destruct (compute_fft_shape _ _ _ _ _ _ Hfft) as (Hlen & _ & Hnn).
  destruct (find_dominant_frequency_cases _ _ _ lo hi _ _ _ Hfft Hlen)
    as [[_ H0] | (k & f' & m' & (Hf & Hm & Hband & _) & H1)].
  - rewrite H0 in Hfdf. injection Hfdf as <- <-. left. auto.
  - rewrite H1 in Hfdf. injection Hfdf as <- <-. right. split; [exact Hband|].
    rewrite Forall_forall in Hnn. apply Hnn. apply list_elem_of_lookup. eauto.
Qed.

(** X17: whenever the dominant-frequency search returns, it returns
    [(0, 0)] or a frequency inside the band with a non-negative magnitude;
    with an inverted band ([hi < lo]) it can only return [(0, 0)]. *)
Theorem find_dominant_frequency_range (lib : Library) (sample_rate : Q)
    (signal_data : list Q) (lo hi f m : Q) :
  find_dominant_frequency lib sample_rate signal_data (lo, hi) = Ok (f, m) ->
  ((f = 0%Q /\ m = 0%Q) \/ (in_band lo hi f /\ (0 <= m)%Q)) /\
  ((hi < lo)%Q -> f = 0%Q /\ m = 0%Q).
Proof.
  intros Hfdf. pose proof (dominant_frequency_range _ _ _ _ _ _ _ Hfdf) as Hr.
  split; [exact Hr|]. intros Hinv.
  destruct Hr as [H0 | [[Hlo Hhi] _]]; [exact H0|].
  exfalso. apply (Qlt_irrefl lo).
  eapply Qle_lt_trans; [|exact Hinv]. eapply Qle_trans; eauto.
Qed.

Lemma find_dominant_frequency_range_witness :
  (((4 # 4) = 0%Q /\ (10 # 4) = 0%Q) \/ (in_band 0.5 4 (4 # 4) /\ (0 <= 10 # 4)%Q)) /\
  ((4 < 0.5)%Q -> (4 # 4) = 0%Q /\ (10 # 4) = 0%Q).
Proof.
  apply (find_dominant_frequency_range demo_library 4 [1; 5; 2; 3]%Q 0.5 4 (4 # 4) (10 # 4)).
  reflexivity.
Defined.

(** X18: whenever heart-rate extraction returns, the confidence is not
    negative and the rate is zero (no bin in the band) or between 40.2 and
    199.8 beats per minute. *)
Theorem extract_heart_rate_range (lib : Library) (sample_rate : Q) (ppg_signal : list Q)
    (heart_rate_bpm confidence : Q) :
  extract_heart_rate lib sample_rate ppg_signal = Ok (heart_rate_bpm, confidence) ->
  (0 <= confidence)%Q /\
  ((heart_rate_bpm == 0)%Q \/ (40.2 <= heart_rate_bpm)%Q /\ (heart_rate_bpm <= 199.8)%Q).
Proof.
  unfold extract_heart_rate. intros H.
  apply bind_ok in H as ([f m] & Hfdf & H).
  apply bind_ok in H as ([[freqs mags] phase] & Hfft & H).
  injection H as <- <-.
  apply dominant_frequency_range in Hfdf. split.
  - destruct (Qltb 0 (np.mean mags)) eqn:E; [|apply Qle_refl].
    apply Qltb_lt in E. apply Qle_shift_div_l; [exact E|]. rewrite Qmult_0_l.
    destruct Hfdf as [[_ ->] | [_ Hm]]; [apply Qle_refl | exact Hm].
  - destruct Hfdf as [[-> _] | [[Hlo Hhi] _]]; [left; reflexivity | right].
    split.
    + apply Qle_trans with (0.67 * 60)%Q; [apply Qle_bool_iff; reflexivity|].
      apply Qmult_le_compat_r; [exact Hlo | discriminate].
    + apply Qle_trans with (3.33 * 60)%Q; [|apply Qle_bool_iff; reflexivity].
      apply Qmult_le_compat_r; [exact Hhi | discriminate].
Qed.

Lemma extract_heart_rate_range_witness :
  (0 <= 320 # 192)%Q /\
  ((240 # 4 == 0)%Q \/ (40.2 <= 240 # 4)%Q /\ (240 # 4 <= 199.8)%Q).
Proof.
  apply (extract_heart_rate_range demo_library 4 [1; 5; 2; 3]%Q). reflexivity.
Defined.

(** X19: whenever respiration-rate extraction returns, the rate is zero
    or between 7.8 and 30 breaths per minute. *)
Theorem extract_respiration_rate_range (lib : Library) (sample_rate : Q)
    (signal_data : list Q) (resp_rate : Q) :
  extract_respiration_rate lib sample_rate signal_data = Ok resp_rate ->
  (resp_rate == 0)%Q \/ (7.8 <= resp_rate)%Q /\ (resp_rate <= 30)%Q.
Proof.
  unfold extract_respiration_rate. intros H.
  apply bind_ok in H as ([f m] & Hfdf & H). injection H as <-.
  apply dominant_frequency_range in Hfdf.
  destruct Hfdf as [[-> _] | [[Hlo Hhi] _]]; [left; reflexivity | right].
  split.
  - apply Qle_trans with (0.13 * 60)%Q; [apply Qle_bool_iff; reflexivity|].
    apply Qmult_le_compat_r; [exact Hlo | discriminate].
  - apply Qle_trans with (0.5 * 60)%Q; [|apply Qle_bool_iff; reflexivity].
    apply Qmult_le_compat_r; [exact Hhi | discriminate].
Qed.

Lemma extract_respiration_rate_range_witness :
  (60 # 4 == 0)%Q \/ (7.8 <= 60 # 4)%Q /\ (60 # 4 <= 30)%Q.
Proof.
  apply (extract_respiration_rate_range demo_library 1 [1; 5; 2; 3]%Q). reflexivity.
Defined.




(** ** The peak detector: short buffers, flat buffers, spacing of the peaks *)

Lemma detect_qrs_inv (sample_rate : Q) (filtered : list Q) threshold peaks rate :
  detect_qrs sample_rate filtered = Ok (threshold, peaks, rate) ->
  exists m,
    np.max filtered = Ok m /\ threshold = (0.5 * m)%Q /\
    rate = detected_rate sample_rate peaks /\
    scanned sample_rate threshold filtered (length filtered - 2) peaks.
Proof.
  unfold detect_qrs. intros H.
  apply bind_ok in H as (m & Hm & H). apply bind_ok in H as (peaks' & Hscan & H).
  injection H as <- <- <-. exists m. split; [exact Hm|]. split; [reflexivity|].
  split; [reflexivity|].
  destruct (scan_loop sample_rate (0.5 * m)%Q filtered (length filtered - 2))
    as (peaks'' & Hrun & Hinv); [lia|].
  replace (length filtered - 1 - 1) with (length filtered - 2) in Hscan by lia.
  rewrite Hrun in Hscan. injection Hscan as <-. exact Hinv.
Qed.

(** X21: a buffer of one or two samples has no interior sample: the
    detector returns no peak and reports no rate. *)
Theorem detect_qrs_short_buffer (sample_rate : Q) (filtered : list Q) :
  filtered <> [] -> length filtered <= 2 ->
  exists threshold, detect_qrs sample_rate filtered = Ok (threshold, [], None).
Proof.
  intros Hne Hlen. unfold detect_qrs.
  destruct filtered as [|x xs]; [congruence|]. simpl np.max.
  cbv beta iota delta [mbind result_bind].
  replace (length (x :: xs) - 1 - 1) with 0 by (simpl in *; lia).
  eexists. reflexivity.
Qed.

Lemma detect_qrs_short_buffer_witness :
  exists threshold, detect_qrs 500 [3; 7]%Q = Ok (threshold, [], None).
Proof.
  apply (detect_qrs_short_buffer 500 [3; 7]%Q); [discriminate | simpl; lia].
Defined.

(** X22: when no sample of the buffer is positive, no sample exceeds half
    the maximum: the detector returns no peak and reports no rate. *)
Theorem detect_qrs_nonpositive_buffer (sample_rate : Q) (filtered : list Q)
    (threshold : Q) (peaks : list nat) (rate : option Q) :
  detect_qrs sample_rate filtered = Ok (threshold, peaks, rate) ->
  (forall x, x ∈ filtered -> (x <= 0)%Q) ->
  peaks = [] /\ rate = None.
Proof.
  intros H Hnp. apply detect_qrs_inv in H as (m & Hm & -> & -> & Hcand & _ & _).
  assert (Hm0 : (m <= 0)%Q).
  { destruct filtered as [|x xs]; [discriminate|].
    injection Hm as <-. apply Hnp. apply fold_maximum_spec. }
  assert (Hmax : forall y, y ∈ filtered -> (y <= m)%Q).
  { destruct filtered as [|x xs]; [discriminate|].
    injection Hm as <-. apply fold_maximum_spec. }
  assert (Hnil : peaks = []).
  { destruct peaks as [|p ps]; [reflexivity|]. exfalso.
    destruct (Hcand p) as (_ & _ & Hp2 & Hthr & _); [left|].
    assert (Hy : (nth p filtered 0 <= m)%Q) by (apply Hmax, nth_elem_of; lia).
    assert (Hhalf : (m <= 0.5 * m)%Q).
    { setoid_replace (0.5 * m)%Q with (m + - (0.5 * m))%Q using relation Qeq by ring.
      rewrite <- (Qplus_0_r m) at 1. apply Qplus_le_compat; [apply Qle_refl|].
      setoid_replace (- (0.5 * m))%Q with (0.5 * - m)%Q using relation Qeq by ring.
      apply Qmult_le_0_compat; [discriminate|].
      apply (Qopp_le_compat m 0). exact Hm0. }
    apply (Qlt_irrefl (0.5 * m)%Q).
    eapply Qlt_le_trans; [exact Hthr|]. eapply Qle_trans; eauto. }
  subst peaks. split; reflexivity.
Qed.

Lemma detect_qrs_nonpositive_buffer_witness :
  @nil nat = [] /\ @None Q = None.
Proof.
  apply (detect_qrs_nonpositive_buffer 500 [-1; 0; -3; 0; -2]%Q (0.5 * 0)%Q [] None).
  - reflexivity.
  - intros x Hx. repeat (apply elem_of_cons in Hx as [->|Hx]; [discriminate|]).
    inversion Hx.
Defined.

(** In a scanned buffer, of two peaks that follow each other the second
    lies past the refractory distance of the first. *)
Lemma scanned_adjacent sample_rate threshold filtered t peaks pre a b post :
  scanned sample_rate threshold filtered t peaks ->
  peaks = pre ++ a :: b :: post ->
  past_refractory sample_rate b a.
Proof.
  intros (Hcand & Hs & Hiff) Heq.
  assert (Hb : b ∈ peaks) by (rewrite Heq; apply elem_of_app; right; right; left).
  destruct (Hcand b Hb) as [Hbt Hbc].
  apply (proj1 (Hiff b Hbt Hbc) Hb a).
  rewrite Heq in Hs |- *.
  assert (Hab : a < b).
  { apply StronglySorted_app_1_r, StronglySorted_inv in Hs as [_ Hall].
    inversion Hall; assumption. }
  split; [apply elem_of_app; right; left|]. split; [exact Hab|].
  intros q Hq Hqb. apply elem_of_app in Hq as [Hq|Hq].
  - apply Nat.lt_le_incl.
    apply (StronglySorted_app_1_elem_of lt pre (a :: b :: post) q a Hs Hq). left.
  - apply elem_of_cons in Hq as [->|Hq]; [reflexivity|].
    apply elem_of_cons in Hq as [->|Hq]; [lia|].
    apply StronglySorted_app_1_r, StronglySorted_inv in Hs as [Hs' _].
    apply StronglySorted_inv in Hs' as [_ Hall].
    rewrite Forall_forall in Hall. specialize (Hall q Hq). lia.
Qed.

Lemma diff_spacing sample_rate threshold filtered t peaks :
  scanned sample_rate threshold filtered t peaks ->
  forall pre l, peaks = pre ++ l ->
  Forall (fun d => (sample_rate * 0.3 < inject_Z d)%Q) (np.diff l).
Proof.
  intros Hsc pre l. revert pre. induction l as [|a l IH]; intros pre Heq; [constructor|].
  destruct l as [|b l]; [constructor|].
  change (np.diff (a :: b :: l)) with ((Z.of_nat b - Z.of_nat a)%Z :: np.diff (b :: l)).
  constructor.
  - exact (scanned_adjacent _ _ _ _ _ _ _ _ _ Hsc Heq).
  - apply (IH (pre ++ [a])). rewrite <- app_assoc. exact Heq.
Qed.

Lemma sum_above (c : Q) (xs : list Q) : forall acc,
  Forall (fun x => c < x)%Q xs -> xs <> [] ->
  (acc + Q_of_nat (length xs) * c < fold_left Qplus xs acc)%Q.
Proof.
  induction xs as [|x xs IH]; intros acc Hall Hne; [congruence|].
  inversion Hall as [|? ? Hx Hxs]; subst. simpl fold_left.
  rewrite (Q_of_nat_S (length xs)).
  destruct xs as [|y ys].
  - simpl. unfold Q_of_nat. simpl.
    setoid_replace (acc + (0 + 1) * c)%Q with (acc + c)%Q using relation Qeq by ring.
    apply Qplus_lt_r. exact Hx.
  - specialize (IH (acc + x)%Q Hxs ltac:(discriminate)).
    eapply Qle_lt_trans; [|exact IH].
    setoid_replace (acc + (Q_of_nat (length (y :: ys)) + 1) * c)%Q
      with ((acc + c) + Q_of_nat (length (y :: ys)) * c)%Q using relation Qeq by ring.
    apply Qplus_le_compat; [|apply Qle_refl].
    apply Qplus_le_compat; [apply Qle_refl | apply Qlt_le_weak; exact Hx].
Qed.

(** X23: at a positive sampling rate, the peaks the detector returns are
    more than [0.3 * sample_rate] samples apart, one after the other, and
    a rate that is reported is below 200 beats per minute. *)
Theorem detect_qrs_refractory_spacing (sample_rate : Q) (filtered : list Q)
    (threshold : Q) (peaks : list nat) (rate : option Q) :
  (0 < sample_rate)%Q ->
  detect_qrs sample_rate filtered = Ok (threshold, peaks, rate) ->
  Forall (fun d => (sample_rate * 0.3 < inject_Z d)%Q) (np.diff peaks) /\
  forall r, rate = Some r -> (r < 200)%Q.
Proof.
  intros Hsr H. apply detect_qrs_inv in H as (m & _ & _ & -> & Hsc).
  pose proof (diff_spacing _ _ _ _ _ Hsc [] peaks eq_refl) as Hsp.
  split; [exact Hsp|].
  intros r Hr. unfold detected_rate in Hr.
  destruct (1 <? length peaks) eqn:Hlen; [|discriminate].
  apply Nat.ltb_lt in Hlen. injection Hr as <-.
  set (rr := map (fun d => (inject_Z d / sample_rate)%Q) (np.diff peaks)).
  assert (Hn : length rr = length peaks - 1)
    by (unfold rr; rewrite length_map; apply diff_length).
  assert (Hrr : Forall (fun x => 0.3 < x)%Q rr).
  { unfold rr. apply Forall_fmap. eapply Forall_impl; [exact Hsp|].
    intros d Hd. simpl. apply Qlt_shift_div_l; [exact Hsr|].
    rewrite Qmult_comm. exact Hd. }
  assert (Hmean : (0.3 < np.mean rr)%Q).
  { unfold np.mean, np.sum. apply Qlt_shift_div_l; [apply Q_of_nat_pos; lia|].
    pose proof (sum_above 0.3 rr 0 Hrr) as Hsum.
    rewrite Qplus_0_l, (Qmult_comm (Q_of_nat _)) in Hsum. apply Hsum.
    intros ->. simpl in Hn. lia. }
  assert (Hpos : (0 < np.mean rr)%Q) by (eapply Qlt_trans; [|exact Hmean]; reflexivity).
  apply Qlt_shift_div_r; [exact Hpos|].
  apply Qle_lt_trans with (200 * 0.3)%Q; [apply Qle_bool_iff; reflexivity|].
  apply Qmult_lt_l; [reflexivity | exact Hmean].
Qed.

Lemma detect_qrs_refractory_spacing_witness :
  Forall (fun d => (10 * 0.3 < inject_Z d)%Q) (np.diff [5; 9; 14]) /\
  forall r, Some (12000 # 90)%Q = Some r -> (r < 200)%Q.
Proof.
  apply (detect_qrs_refractory_spacing 10
           [0; 1; 0; 0; 0; 3; 0; 0; 0; 4; 0; 0; 0; 0; 5; 0]%Q 2.5%Q);
    reflexivity.
Defined.





(** ** The circular buffer and the streaming loop of [demo_real_time_buffer] *)

Lemma deque_append_drop (maxlen : nat) (xs : list Q) (v : Q) :
  deque_append maxlen (drop (length xs - maxlen) xs) v
  = drop (length (xs ++ [v]) - maxlen) (xs ++ [v]).
Proof.
  unfold deque_append. rewrite !length_app, length_drop. cbn [length].
  destruct (Nat.ltb_spec maxlen (length xs - (length xs - maxlen) + 1)) as [Hfull|Hroom].
  - destruct maxlen as [|m].
    + rewrite !Nat.sub_0_r, (drop_ge xs), (drop_ge (xs ++ [v]));
        [reflexivity | rewrite length_app; simpl; lia | lia].
    + rewrite drop_app_le by (rewrite length_drop; lia).
      rewrite drop_drop, drop_app_le by lia.
      f_equal. f_equal. lia.
  - replace (length xs - maxlen) with 0 by lia.
    replace (length xs + 1 - maxlen) with 0 by lia. reflexivity.
Qed.

Lemma added_buffer (size0 : nat) (xs : list Q) :
  buffer (fold_left add xs (CircularBuffer_init size0)) = drop (length xs - size0) xs
  /\ size (fold_left add xs (CircularBuffer_init size0)) = size0.
Proof.
  induction xs as [|v xs IH] using rev_ind; [split; reflexivity|].
  rewrite fold_left_app. cbn [fold_left]. destruct IH as [Hb Hs].
  unfold add at 1 3. cbn [buffer size]. rewrite Hb, Hs. split; [|reflexivity].
  apply deque_append_drop.
Qed.

Lemma is_full_added (size0 : nat) (xs : list Q) :
  is_full (fold_left add xs (CircularBuffer_init size0)) = (size0 <=? length xs).
Proof.
  destruct (added_buffer size0 xs) as [Hb Hs].
  unfold is_full. rewrite Hb, Hs, length_drop.
  destruct (Nat.leb_spec size0 (length xs)).
  - apply Nat.eqb_eq. lia.
  - apply Nat.eqb_neq. lia.
Qed.

(** X25: after any sequence of [add] calls on a fresh buffer of capacity
    [size], the buffer holds exactly the last [size] values added, oldest
    first (all of them while fewer than [size] were added), and [is_full]
    answers whether at least [size] values were added. *)
Theorem buffer_holds_last_values (size0 : nat) (xs : list Q) :
  let cb := fold_left add xs (CircularBuffer_init size0) in
  get_data cb = drop (length xs - size0) xs /\
  length (get_data cb) = Nat.min (length xs) size0 /\
  is_full cb = (size0 <=? length xs).
Proof.
  intros cb. destruct (added_buffer size0 xs) as [Hb _]. fold cb in Hb.
  unfold get_data. rewrite Hb, length_drop.
  split; [reflexivity|]. split; [lia | apply is_full_added].
Qed.

Lemma windows_step (b n : nat) :
  2 <= b ->
  n / b = (n - 1) / b + (if (b <=? n + 1) && (n mod b =? 0) then 1 else 0).
Proof.
  intros Hb. destruct n as [|n].
  - rewrite Nat.div_small by lia.
    replace (b <=? 0 + 1) with false by (symmetry; apply Nat.leb_gt; lia).
    cbn [andb Nat.sub]. rewrite Nat.div_small by lia. reflexivity.
  - replace (S n - 1) with n by lia.
    pose proof (Nat.div_mod_eq (S n) b) as H1.
    pose proof (Nat.div_mod_eq n b) as H2.
    pose proof (Nat.mod_upper_bound (S n) b ltac:(lia)) as H3.
    pose proof (Nat.mod_upper_bound n b ltac:(lia)) as H4.
    destruct (Nat.eqb_spec (S n mod b) 0) as [Hz|Hnz].
    + rewrite Hz, Nat.add_0_r in H1.
      assert (b <= S n + 1) as Hle by (destruct (S n / b); nia).
      apply Nat.leb_le in Hle. rewrite Hle. cbn [andb].
      assert (n mod b = b - 1) as Hr.
      { destruct (S n / b) as [|q] eqn:Hq; [lia|].
        symmetry. apply (Nat.mod_unique n b q); nia. }
      rewrite Hr in H2.
      apply (Nat.mul_cancel_l _ _ b); [lia | nia].
    + rewrite andb_false_r, Nat.add_0_r.
      assert (n mod b = S n mod b - 1) as Hr.
      { symmetry. apply (Nat.mod_unique n b (S n / b)); lia. }
      rewrite Hr in H2.
      apply (Nat.mul_cancel_l _ _ b); [lia | nia].
Qed.

Lemma stream_invariant (buffer_size : nat) (signal : list Q) :
  2 <= buffer_size ->
  stream buffer_size signal
  = Ok (fold_left add signal (CircularBuffer_init buffer_size),
        length signal, (length signal - 1) / buffer_size).
Proof.
  intros Hb. unfold stream.
  induction signal as [|v xs IH] using rev_ind.
  - simpl. rewrite Nat.div_small by lia. reflexivity.
  - rewrite (for_each_snoc _ _ _ _ _ IH). unfold stream_body.
    rewrite fold_left_app. cbn [fold_left].
    set (cb := fold_left add xs (CircularBuffer_init buffer_size)).
    pose proof (is_full_added buffer_size (xs ++ [v])) as Hfull.
    rewrite fold_left_app in Hfull. cbn [fold_left] in Hfull. fold cb in Hfull.
    rewrite Hfull, length_app. cbn [length].
    replace (length xs + 1 - 1) with (length xs) by lia.
    rewrite (windows_step buffer_size (length xs) Hb).
    destruct (Nat.leb_spec buffer_size (length xs + 1)) as [Hle|Hgt]; cbn [andb].
    + unfold py_mod. replace (buffer_size =? 0) with false
        by (symmetry; apply Nat.eqb_neq; lia).
      cbv beta iota delta [mbind result_bind].
      destruct (length xs mod buffer_size =? 0); do 3 f_equal; lia.
    + do 3 f_equal. lia.
Qed.

(** X26: with a buffer of at least two samples the streaming loop never
    raises; it processes [(n - 1) / buffer_size] windows of an [n]-sample
    signal (the window that first fills the buffer, at index
    [buffer_size - 1], is not processed), and ends with the last
    [buffer_size] samples in the buffer. *)
Theorem stream_window_count (buffer_size : nat) (signal : list Q) :
  2 <= buffer_size ->
  exists cb,
    stream buffer_size signal
    = Ok (cb, length signal, (length signal - 1) / buffer_size) /\
    get_data cb = drop (length signal - buffer_size) signal.
Proof.
  intros Hb. eexists. split; [apply stream_invariant; exact Hb|].
  apply added_buffer.
Qed.

Lemma stream_window_count_witness :
  2 <= 3 /\
  exists cb,
    stream 3 [1; 2; 3; 4; 5; 6; 7]%Q = Ok (cb, length [1; 2; 3; 4; 5; 6; 7]%Q,
                                           (length [1; 2; 3; 4; 5; 6; 7]%Q - 1) / 3) /\
    get_data cb = drop (length [1; 2; 3; 4; 5; 6; 7]%Q - 3) [1; 2; 3; 4; 5; 6; 7]%Q.
Proof.
  split; [lia | apply (stream_window_count 3 [1; 2; 3; 4; 5; 6; 7]%Q); lia].
Defined.

(** X27: with a buffer of one sample every sample is a processed window. *)
Theorem stream_unit_buffer (signal : list Q) :
  exists cb, stream 1 signal = Ok (cb, length signal, length signal).
Proof.
  exists (fold_left add signal (CircularBuffer_init 1)).
  unfold stream. induction signal as [|v xs IH] using rev_ind; [reflexivity|].
  rewrite (for_each_snoc _ _ _ _ _ IH). unfold stream_body.
  pose proof (is_full_added 1 (xs ++ [v])) as Hfull.
  rewrite fold_left_app in Hfull. cbn [fold_left] in Hfull.
  rewrite fold_left_app. cbn [fold_left].
  rewrite Hfull, length_app. cbn [length].
  replace (1 <=? length xs + 1) with true by (symmetry; apply Nat.leb_le; lia).
  unfold py_mod. cbv beta iota delta [mbind result_bind Nat.eqb].
  rewrite Nat.mod_1_r. reflexivity.
Qed.

(** X28: with a buffer of size zero the first sample already raises
    [ZeroDivisionError]: the empty deque counts as full and the index is
    reduced modulo zero. *)
Theorem stream_zero_buffer (signal : list Q) :
  signal <> [] -> stream 0 signal = Raise ZeroDivisionError.
Proof.
  intros Hne. destruct signal as [|v xs]; [congruence|]. reflexivity.
Qed.

Lemma stream_zero_buffer_witness :
  [1; 2]%Q <> [] /\ stream 0 [1; 2]%Q = Raise ZeroDivisionError.
Proof.
  split; [discriminate | apply (stream_zero_buffer [1; 2]%Q); discriminate].
Defined.
